(** * Portfolio: the project filter engine and the terminal command interpreter

    A shallow embedding of the client-side logic of the portfolio site:

    - [src/types/project.ts]   the project record and its two enumerations;
    - [src/data/projects.ts]   [createProject] and the shipped catalog;
    - the home page            [filteredProjects], the search and filter grid;
    - [src/components/CLI.tsx] [findProject], the [COMMANDS] table,
                               [executeCommand] and [handleKeyDown].

    Modelling conventions.

    - A JavaScript string is a [string]: a sequence of 8-bit characters.  Case
      conversion acts on the ASCII letters and [trim] strips the ASCII white
      space (tab, line feed, vertical tab, form feed, carriage return, space);
      every string of the catalog and of the command table is ASCII.
    - A [Set<T>] over one of the two enumerations is a [gset].
    - JSX output is kept as data: one constructor per element the commands
      build, a message being a [div] with its class name and its text.
    - React state is threaded explicitly; calls of the host's callbacks are
      recorded in a trace; a JavaScript exception is the [Throw] outcome. *)

From Stdlib Require Import Ascii String NArith ZArith List Bool Lia.
From Stdlib Require Import DecimalString DecimalNat.
From stdpp Require Import base decidable countable list strings gmap.

Local Open Scope string_scope.
Local Open Scope list_scope.

(** ** JavaScript strings *)

Module JsString.

Definition is_upper (c : ascii) : bool :=
  let n := N_of_ascii c in ((65 <=? n) && (n <=? 90))%N.

Definition is_lower (c : ascii) : bool :=
  let n := N_of_ascii c in ((97 <=? n) && (n <=? 122))%N.

Definition lower_char (c : ascii) : ascii :=
  if is_upper c then ascii_of_N (N_of_ascii c + 32) else c.

Definition upper_char (c : ascii) : ascii :=
  if is_lower c then ascii_of_N (N_of_ascii c - 32) else c.

Fixpoint map_chars (f : ascii -> ascii) (s : string) : string :=
  match s with
  | EmptyString => EmptyString
  | String c s' => String (f c) (map_chars f s')
  end.

(** [String.prototype.toLowerCase] and [toUpperCase], on ASCII.  Beyond
    ASCII the language maps more letters, some to several characters and
    some by their context; a statement that needs a law of the case mapping
    says [is_ascii] of the strings it needs it for. *)
Definition toLowerCase (s : string) : string := map_chars lower_char s.
Definition toUpperCase (s : string) : string := map_chars upper_char s.

(** [s.startsWith(sub)]. *)
Fixpoint startsWith (s sub : string) : bool :=
  match sub, s with
  | EmptyString, _ => true
  | String _ _, EmptyString => false
  | String b sub', String a s' => Ascii.eqb a b && startsWith s' sub'
  end.

(** [s.includes(sub)]: [sub] occurs in [s] at some position. *)
Fixpoint includes (s sub : string) : bool :=
  startsWith s sub ||
  match s with
  | EmptyString => false
  | String _ s' => includes s' sub
  end.

(** A string is truthy when it is not empty. *)
Definition truthy (s : string) : bool :=
  match s with EmptyString => false | String _ _ => true end.

(** [s.charAt(0)]: the first character as a string, [""] when there is none. *)
Definition charAt0 (s : string) : string :=
  match s with
  | EmptyString => EmptyString
  | String c _ => String c EmptyString
  end.

(** [s.slice(1)]. *)
Definition slice1 (s : string) : string :=
  match s with
  | EmptyString => EmptyString
  | String _ s' => s'
  end.

(** White space as [String.prototype.trim] sees it, on ASCII; the language
    also strips U+00A0, U+FEFF and the Unicode space and line separators. *)
Definition is_white (c : ascii) : bool :=
  let n := N_of_ascii c in ((9 <=? n) && (n <=? 13) || (n =? 32))%N.

Fixpoint trimStart (s : string) : string :=
  match s with
  | EmptyString => EmptyString
  | String c s' => if is_white c then trimStart s' else s
  end.

(** [trimEnd] drops the trailing white space: a character is kept when it
    is not white or something survives after it. *)
Fixpoint trimEnd (s : string) : string :=
  match s with
  | EmptyString => EmptyString
  | String c s' =>
      match trimEnd s' with
      | EmptyString => if is_white c then EmptyString else String c EmptyString
      | String _ _ as r => String c r
      end
  end.

Definition trim (s : string) : string := trimEnd (trimStart s).

(** [s.split(sep)] for a one-character separator, as the first field and
    the remaining fields: the result of [split] is never empty. *)
Fixpoint split (sep : ascii) (s : string) : string * list string :=
  match s with
  | EmptyString => (EmptyString, [])
  | String c s' =>
      let '(field, fields) := split sep s' in
      if Ascii.eqb c sep then (EmptyString, field :: fields)
      else (String c field, fields)
  end.

(** [fields.join(sep)]. *)
Fixpoint join (sep : string) (fields : list string) : string :=
  match fields with
  | [] => EmptyString
  | [x] => x
  | x :: rest => x +:+ sep +:+ join sep rest
  end.

(** All characters of a string satisfy a test. *)
Fixpoint all_chars (f : ascii -> bool) (s : string) : bool :=
  match s with
  | EmptyString => true
  | String c s' => f c && all_chars f s'
  end.

End JsString.

Import JsString.

(** ** The data model ([src/types/project.ts]) *)

Inductive ProjectDomain : Set :=
| Security
| DataEngineering
| WebDevelopment
| Infrastructure
| DomainResearch
| Design.

Inductive ProjectType : Set :=
| OpenSource
| Commercial
| Research
| Learning
| PublishedPackage.

(** The enumerations are string literal types: the value at run time. *)
Definition domain_string (d : ProjectDomain) : string :=
  match d with
  | Security => "Security"
  | DataEngineering => "Data Engineering"
  | WebDevelopment => "Web Development"
  | Infrastructure => "Infrastructure"
  | DomainResearch => "Research"
  | Design => "Design"
  end.

Definition type_string (t : ProjectType) : string :=
  match t with
  | OpenSource => "Open Source"
  | Commercial => "Commercial"
  | Research => "Research"
  | Learning => "Learning"
  | PublishedPackage => "Published Package"
  end.

#[global] Instance ProjectDomain_eq_dec : EqDecision ProjectDomain.
Proof. solve_decision. Defined.

#[global] Instance ProjectType_eq_dec : EqDecision ProjectType.
Proof. solve_decision. Defined.

Definition ProjectDomain_code (d : ProjectDomain) : nat :=
  match d with
  | Security => 0 | DataEngineering => 1 | WebDevelopment => 2
  | Infrastructure => 3 | DomainResearch => 4 | Design => 5
  end.

Definition ProjectDomain_decode (n : nat) : option ProjectDomain :=
  match n with
  | 0 => Some Security | 1 => Some DataEngineering | 2 => Some WebDevelopment
  | 3 => Some Infrastructure | 4 => Some DomainResearch | 5 => Some Design
  | _ => None
  end.

Definition ProjectType_code (t : ProjectType) : nat :=
  match t with
  | OpenSource => 0 | Commercial => 1 | Research => 2
  | Learning => 3 | PublishedPackage => 4
  end.

Definition ProjectType_decode (n : nat) : option ProjectType :=
  match n with
  | 0 => Some OpenSource | 1 => Some Commercial | 2 => Some Research
  | 3 => Some Learning | 4 => Some PublishedPackage
  | _ => None
  end.

#[global] Instance ProjectDomain_countable : Countable ProjectDomain.
Proof.
  apply (inj_countable ProjectDomain_code ProjectDomain_decode).
  intros []; reflexivity.
Defined.

#[global] Instance ProjectType_countable : Countable ProjectType.
Proof.
  apply (inj_countable ProjectType_code ProjectType_decode).
  intros []; reflexivity.
Defined.

(** [type: ProjectType | ProjectType[]]. *)
Inductive TypeField : Set :=
| OneType (t : ProjectType)
| TypeArray (ts : list ProjectType).

Record ProjectStats : Set := {
  stars : option N;
  contributors : option N;
  downloads : option string;
  forks : option N;
}.

Record ProjectMedia : Set := {
  thumbnail : option string;
  screenshots : option (list string);
  video : option string;
  liveDemo : option string;
}.

Record ProjectLinks : Set := {
  github : option string;
  docs : option string;
  article : option string;
  website : option string;
  pypi : option string;
}.

Record Project : Set := {
  id : string;
  title : string;
  domain : ProjectDomain;
  type : TypeField;
  description : string;
  longDescription : option string;
  techStack : list string;
  features : option (list string);
  stats : option ProjectStats;
  media : option ProjectMedia;
  links : ProjectLinks;
  featured : option bool;
}.

(** [Array.isArray(project.type) ? project.type : [project.type]]. *)
Definition projectTypes (p : Project) : list ProjectType :=
  match type p with
  | TypeArray ts => ts
  | OneType t => [t]
  end.

(** ** The filter engine (home page, [filteredProjects]) *)

Section FilterEngine.

Variable projects : list Project.

(** The shared search rule: title, description or some techStack entry
    contains the (already lowercased) query. *)
Definition matchesSearch (query : string) (project : Project) : bool :=
  includes (toLowerCase (title project)) query
  || includes (toLowerCase (description project)) query
  || existsb (fun tech => includes (toLowerCase tech) query) (techStack project).

(** The callback of [projects.filter], with its three early returns. *)
Definition filterCallback (searchQuery : string)
    (selectedDomains : gset ProjectDomain) (selectedTypes : gset ProjectType)
    (project : Project) : bool :=
  if truthy searchQuery && negb (matchesSearch (toLowerCase searchQuery) project)
  then false
  else if (0 <? size selectedDomains)%nat
          && negb (bool_decide (domain project ∈ selectedDomains))
  then false
  else if (0 <? size selectedTypes)%nat
          && negb (existsb (fun t => bool_decide (t ∈ selectedTypes))
                           (projectTypes project))
  then false
  else true.

Definition filteredProjects (searchQuery : string)
    (selectedDomains : gset ProjectDomain) (selectedTypes : gset ProjectType)
    : list Project :=
  List.filter (filterCallback searchQuery selectedDomains selectedTypes) projects.

End FilterEngine.

(** ** The catalog ([src/data/projects.ts]) *)

(** The argument object of [createProject]; an absent key is [None]. *)
Record ProjectInit : Set := {
  init_id : string;
  init_title : string;
  init_domain : ProjectDomain;
  init_type : option TypeField;
  init_description : string;
  init_longDescription : option string;
  init_techStack : list string;
  init_features : option (list string);
  init_github : option string;
  init_docs : option string;
  init_website : option string;
  init_pypi : option string;
  init_article : option string;
  init_featured : option bool;
  init_media : option ProjectMedia;
  init_stats : option ProjectStats;
}.

(** [...(url && { url })]: the key is spread only for a truthy string. *)
Definition spread_truthy (url : option string) : option string :=
  match url with
  | Some u => if truthy u then Some u else None
  | None => None
  end.

Definition createProject (a : ProjectInit) : Project :=
  {| id := init_id a;
     title := init_title a;
     domain := init_domain a;
     type := default (OneType OpenSource) (init_type a);
     description := init_description a;
     longDescription := init_longDescription a;
     techStack := init_techStack a;
     features := init_features a;
     stats := init_stats a;
     media := init_media a;
     links := {| github := spread_truthy (init_github a);
                 docs := spread_truthy (init_docs a);
                 article := spread_truthy (init_article a);
                 website := spread_truthy (init_website a);
                 pypi := spread_truthy (init_pypi a) |};
     featured := Some (default false (init_featured a)) |}.

Module Data.

Definition owl_watch : ProjectInit :=
  {| init_id := "owl-watch";
     init_title := "Owl-Watch";
     init_domain := DataEngineering;
     init_type := None;
     init_description := "AWS-native data engineering pipeline using Glue, Bedrock, and ML for ingesting, processing, and curating data with PySpark ETL jobs.";
     init_longDescription := Some "Owl-Watch is a comprehensive data engineering solution built on AWS infrastructure. It leverages AWS Glue for ETL processing, Amazon Bedrock for ML-powered data curation, and PySpark for scalable data transformations. The pipeline is designed to handle large-scale data ingestion and processing workflows with built-in monitoring and error handling.";
     init_techStack := ["Python"; "TypeScript"; "AWS CDK"; "PySpark"; "AWS Glue"; "Bedrock"];
     init_features := Some [
       "Automated ETL pipeline orchestration";
       "ML-powered data curation with Bedrock";
       "Scalable PySpark transformations";
       "Infrastructure as Code with CDK" ];
     init_github := Some "https://github.com/TheWinterShadow/Owl-Watch";
     init_docs := None; init_website := None; init_pypi := None;
     init_article := None; init_featured := None;
     init_media := None; init_stats := None |}.

Definition lock_and_key : ProjectInit :=
  {| init_id := "lock-and-key";
     init_title := "Lock-And-Key";
     init_domain := Security;
     init_type := Some (TypeArray [OpenSource; PublishedPackage]);
     init_description := "Multi-cloud security scanner analyzing IAM and resource-based policies to identify vulnerabilities and excessive permissions across AWS, Azure, and GCP.";
     init_longDescription := Some "Lock-And-Key is a comprehensive security scanning tool that performs deep analysis of IAM policies and resource permissions across major cloud providers. It identifies privilege escalation risks, wildcard permissions, and violations of least privilege principles. The tool provides actionable security insights with detailed reporting and remediation recommendations.";
     init_techStack := ["Python"; "AWS SDK"; "Azure SDK"; "GCP SDK"; "Interactive CLI"];
     init_features := Some [
       "Multi-cloud IAM policy analysis";
       "Privilege escalation detection";
       "Wildcard permission identification";
       "Least privilege violation reporting";
       "Interactive CLI with detailed reports" ];
     init_github := Some "https://github.com/TheWinterShadow/Lock-And-Key";
     init_docs := Some "https://thewintershadow.github.io/Lock-And-Key/";
     init_website := None;
     init_pypi := Some "https://pypi.org/project/lock-and-key/";
     init_article := None; init_featured := Some true;
     init_media := None; init_stats := None |}.

Definition horizonsec : ProjectInit :=
  {| init_id := "horizonsec";
     init_title := "HorizonSec Project";
     init_domain := Security;
     init_type := None;
     init_description := "Modular security toolkit integrating directly into developer workflows with GAIA (orchestration), DEMETER (infrastructure scanning), HADES (endpoint security), and ARTEMIS (static analysis).";
     init_longDescription := Some "HorizonSec is an open-source security organization focused on building modular security tools that integrate seamlessly into developer workflows. The project includes multiple specialized tools: GAIA for security orchestration, DEMETER for infrastructure scanning, HADES for endpoint security monitoring, and ARTEMIS for static code analysis. Together, these tools provide comprehensive security coverage throughout the development lifecycle.";
     init_techStack := ["Python"; "TypeScript"; "Security Tools"; "CI/CD Integration"];
     init_features := Some [
       "Modular security toolkit architecture";
       "Developer workflow integration";
       "Multi-tool orchestration";
       "Comprehensive security coverage" ];
     init_github := Some "https://github.com/HorizonSec";
     init_docs := None;
     init_website := Some "https://github.com/HorizonSec/horizon-website";
     init_pypi := None; init_article := None; init_featured := Some true;
     init_media := None; init_stats := None |}.

Definition the_data_packet : ProjectInit :=
  {| init_id := "the-data-packet";
     init_title := "The-Data-Packet";
     init_domain := DomainResearch;
     init_type := Some (OneType Research);
     init_description := "Research project exploring data processing and analysis techniques.";
     init_longDescription := None;
     init_techStack := ["Python"; "Data Analysis"];
     init_features := None;
     init_github := Some "https://github.com/TheWinterShadow/The-Data-Packet";
     init_docs := None; init_website := None; init_pypi := None;
     init_article := None; init_featured := None;
     init_media := None; init_stats := None |}.

Definition thought_smith : ProjectInit :=
  {| init_id := "thought-smith";
     init_title := "thought-smith";
     init_domain := WebDevelopment;
     init_type := None;
     init_description := "Web development project showcasing modern frontend techniques and best practices.";
     init_longDescription := None;
     init_techStack := ["TypeScript"; "React"; "Next.js"];
     init_features := None;
     init_github := Some "https://github.com/TheWinterShadow/thought-smith";
     init_docs := None; init_website := None; init_pypi := None;
     init_article := None; init_featured := None;
     init_media := None; init_stats := None |}.

Definition the_deployment_forge : ProjectInit :=
  {| init_id := "the-deployment-forge";
     init_title := "The-Deployment-Forge";
     init_domain := Infrastructure;
     init_type := None;
     init_description := "Infrastructure automation and deployment tooling for modern cloud environments.";
     init_longDescription := None;
     init_techStack := ["Python"; "Infrastructure as Code"; "CI/CD"];
     init_features := None;
     init_github := Some "https://github.com/TheWinterShadow/The-Deployment-Forge";
     init_docs := None; init_website := None; init_pypi := None;
     init_article := None; init_featured := None;
     init_media := None; init_stats := None |}.

Definition whomping_willow : ProjectInit :=
  {| init_id := "whomping-willow";
     init_title := "Whomping-Willow";
     init_domain := WebDevelopment;
     init_type := None;
     init_description := "Web development project with modern UI/UX patterns.";
     init_longDescription := None;
     init_techStack := ["JavaScript"; "React"];
     init_features := None;
     init_github := Some "https://github.com/TheWinterShadow/Whomping-Willow";
     init_docs := None; init_website := None; init_pypi := None;
     init_article := None; init_featured := None;
     init_media := None; init_stats := None |}.

Definition hogwarts : ProjectInit :=
  {| init_id := "hogwarts";
     init_title := "Hogwarts";
     init_domain := WebDevelopment;
     init_type := None;
     init_description := "Web development project demonstrating full-stack capabilities.";
     init_longDescription := None;
     init_techStack := ["TypeScript"; "React"; "Node.js"];
     init_features := None;
     init_github := Some "https://github.com/TheWinterShadow/Hogwarts";
     init_docs := None; init_website := None; init_pypi := None;
     init_article := None; init_featured := None;
     init_media := None; init_stats := None |}.

Definition netsecure : ProjectInit :=
  {| init_id := "netsecure";
     init_title := "NetSecure";
     init_domain := Design;
     init_type := Some (TypeArray [OpenSource]);
     init_description := "Security-focused design concept showcasing modern UI/UX for security applications.";
     init_longDescription := None;
     init_techStack := ["Design"; "UI/UX"];
     init_features := None;
     init_github := None;
     init_docs := None; init_website := None; init_pypi := None;
     init_article := None; init_featured := None;
     init_media := Some {| thumbnail := Some "https://www.elijahwinter.com/img/netsecure.png";
                           screenshots := None; video := None; liveDemo := None |};
     init_stats := None |}.

(** [export const projects: Project[]]. *)
Definition projects : list Project :=
  map createProject
    [ owl_watch; lock_and_key; horizonsec; the_data_packet; thought_smith;
      the_deployment_forge; whomping_willow; hogwarts; netsecure ].

End Data.

(** ** The terminal ([src/components/CLI.tsx]) *)

(** A [Date], in milliseconds since the epoch. *)
Definition Date : Set := N.

(** The JSX the terminal renders, as data. *)
Inductive Output : Set :=
| WelcomeBanner
| HelpText
| ProjectList (projectList : list Project) (heading : string)
| ProjectDetails (project : Project)
| Message (className : string) (text : string).

Record CommandHistory : Set := {
  command : string;
  output : Output;
  timestamp : Date;
}.

(** An entry of the command table; [summary] is its [description] key,
    a name the project record already uses. *)
Record Command : Set := {
  summary : string;
  execute : list string -> option Output;
}.

(** What [COMMANDS[cmd]] evaluates to: [undefined], one of the table's own
    entries, or a member inherited from [Object.prototype]. *)
Inductive PropertyValue : Set :=
| Undefined
| OwnCommand (c : Command)
| Inherited (key : string).

(** The property names every object literal inherits. *)
Definition Object_prototype_keys : list string :=
  [ "constructor"; "__defineGetter__"; "__defineSetter__"; "hasOwnProperty";
    "__lookupGetter__"; "__lookupSetter__"; "isPrototypeOf";
    "propertyIsEnumerable"; "toString"; "valueOf"; "__proto__";
    "toLocaleString" ].

Fixpoint own_property (table : list (string * Command)) (key : string)
    : option Command :=
  match table with
  | [] => None
  | (k, c) :: rest => if String.eqb k key then Some c else own_property rest key
  end.

(** [table[key]] for an object literal [table]: own entries first, then
    the prototype chain. *)
Definition get_property (table : list (string * Command)) (key : string)
    : PropertyValue :=
  match own_property table key with
  | Some c => OwnCommand c
  | None =>
      if existsb (String.eqb key) Object_prototype_keys then Inherited key
      else Undefined
  end.

(** [args[0]] when it is truthy: neither [undefined] nor the empty string. *)
Definition truthy_arg (a : option string) : option string :=
  match a with
  | Some s => if truthy s then Some s else None
  | None => None
  end.

Inductive HostCall : Set :=
| OnClose
| OnNavigateToProject (projectId : string).

Record CLIProps : Set := {
  isOpen : bool;
  (** whether the optional [onNavigateToProject] prop is given *)
  navigates : bool;
}.

Record CLIState : Set := {
  commandHistory : list CommandHistory;
  currentInput : string;
  commandIndex : Z;
}.

Inductive JsError : Set :=
| TypeError (message : string).

Inductive Completion (A : Type) : Type :=
| Normal (a : A)
| Throw (e : JsError).

Arguments Normal {A} a.
Arguments Throw {A} e.

(** The component's state together with the trace of host callbacks. *)
Record World : Set := {
  state : CLIState;
  calls : list HostCall;
}.

Definition M (A : Type) : Type := World -> Completion (A * World).

#[global] Instance M_ret : MRet M := fun A a w => Normal (a, w).

#[global] Instance M_bind : MBind M := fun A B f m w =>
  match m w with
  | Normal (a, w') => f a w'
  | Throw e => Throw e
  end.

Definition throw {A : Type} (e : JsError) : M A := fun _ => Throw e.

Definition call (c : HostCall) : M unit := fun w =>
  Normal (tt, {| state := state w; calls := calls w ++ [c] |}).

(** The values of the state the current render closed over. *)
Definition render : M CLIState := fun w => Normal (state w, w).

Definition setCommandHistory (f : list CommandHistory -> list CommandHistory)
    : M unit := fun w =>
  Normal (tt, {| state := {| commandHistory := f (commandHistory (state w));
                             currentInput := currentInput (state w);
                             commandIndex := commandIndex (state w) |};
                 calls := calls w |}).

Definition setCurrentInput (s : string) : M unit := fun w =>
  Normal (tt, {| state := {| commandHistory := commandHistory (state w);
                             currentInput := s;
                             commandIndex := commandIndex (state w) |};
                 calls := calls w |}).

Definition setCommandIndex (i : Z) : M unit := fun w =>
  Normal (tt, {| state := {| commandHistory := commandHistory (state w);
                             currentInput := currentInput (state w);
                             commandIndex := i |};
                 calls := calls w |}).

(** [array[i]] for a number [i]: [undefined] outside the array. *)
Definition at_index {A : Type} (l : list A) (i : Z) : option A :=
  if (i <? 0)%Z then None else l !! Z.to_nat i.

Definition red : string := "text-red-400".
Definition yellow : string := "text-yellow-400".
Definition green : string := "text-green-400".

Section CLI.

Variable projects : list Project.

Definition findProject (query : string) : option Project :=
  List.find
    (fun p => String.eqb (id p) query
              || includes (toLowerCase (title p)) (toLowerCase query))
    projects.

Definition renderProjectList (projectList : list Project) (heading : string)
    : Output :=
  ProjectList projectList heading.

Definition help_execute (_ : list string) : option Output := Some HelpText.

Definition ls_execute (_ : list string) : option Output :=
  Some (renderProjectList projects "Projects").

Definition cat_execute (args : list string) : option Output :=
  match truthy_arg (args !! 0) with
  | None => Some (Message red "Usage: cat <project-id>")
  | Some arg0 =>
      match findProject arg0 with
      | None =>
          Some (Message red "Project not found. Use 'ls' to see available projects.")
      | Some project => Some (ProjectDetails project)
      end
  end.

Definition filter_execute (args : list string) : option Output :=
  match truthy_arg (args !! 0) with
  | None => Some (Message red "Usage: filter <domain>")
  | Some arg0 =>
      let dom := toUpperCase (charAt0 arg0) +:+ toLowerCase (slice1 arg0) in
      let filtered :=
        List.filter
          (fun p => String.eqb (toLowerCase (domain_string (domain p)))
                               (toLowerCase dom))
          projects in
      if (length filtered =? 0)%nat
      then Some (Message yellow ("No projects found for domain: " +:+ dom))
      else Some (renderProjectList filtered ("Projects in " +:+ dom))
  end.

(** The callback of [projects.filter] is the search rule of the grid,
    written out again in the source. *)
Definition search_execute (args : list string) : option Output :=
  match truthy_arg (args !! 0) with
  | None => Some (Message red "Usage: search <query>")
  | Some _ =>
      let query := toLowerCase (join " " args) in
      let filtered := List.filter (matchesSearch query) projects in
      if (length filtered =? 0)%nat
      then Some (Message yellow ("No projects found matching: " +:+ query))
      else Some (renderProjectList filtered "Search results")
  end.

Definition clear_execute (_ : list string) : option Output := None.

Definition exit_execute (_ : list string) : option Output := None.

Definition open_execute (args : list string) : option Output :=
  match truthy_arg (args !! 0) with
  | None => Some (Message red "Usage: open <project-id>")
  | Some arg0 =>
      match findProject arg0 with
      | None =>
          Some (Message red "Project not found. Use 'ls' to see available projects.")
      | Some project =>
          Some (Message green ("Opening project: " +:+ title project))
      end
  end.

Definition COMMANDS : list (string * Command) :=
  [ ("help",   {| summary := "Show available commands"; execute := help_execute |});
    ("ls",     {| summary := "List all projects"; execute := ls_execute |});
    ("cat",    {| summary := "View project details"; execute := cat_execute |});
    ("filter", {| summary := "Filter projects by domain"; execute := filter_execute |});
    ("search", {| summary := "Search projects"; execute := search_execute |});
    ("clear",  {| summary := "Clear terminal"; execute := clear_execute |});
    ("exit",   {| summary := "Close CLI"; execute := exit_execute |});
    ("open",   {| summary := "Open a project by ID"; execute := open_execute |}) ].

Variable props : CLIProps.

Definition welcome (now : Date) : CommandHistory :=
  {| command := "welcome"; output := WelcomeBanner; timestamp := now |}.

(** [useState] initial values. *)
Definition initialState : CLIState :=
  {| commandHistory := []; currentInput := ""; commandIndex := (-1)%Z |}.

(** The effect on [isOpen]. *)
Definition openEffect (now : Date) : M unit :=
  if isOpen props then setCommandHistory (fun _ => [welcome now])
  else mret tt.

Definition append (entry : CommandHistory) : M unit :=
  setCommandHistory (fun prev => prev ++ [entry]).

Definition executeCommand (now : Date) (input : string) : M unit :=
  let trimmed := trim input in
  if negb (truthy trimmed) then mret tt
  else
    let '(command, args) := split " " trimmed in
    let cmd := toLowerCase command in
    if String.eqb cmd "exit" then call OnClose
    else if String.eqb cmd "clear" then setCommandHistory (fun _ => [])
    else
      match (if String.eqb cmd "open" then truthy_arg (args !! 0) else None) with
      | Some arg0 =>
          let project := findProject arg0 in
          match project with
          | Some p =>
              (if navigates props then call (OnNavigateToProject (id p))
               else mret tt) ;;
              append {| command := trimmed;
                        output := Message green ("Opening project: " +:+ title p);
                        timestamp := now |}
          | None =>
              append {| command := trimmed;
                        output := Message red "Project not found";
                        timestamp := now |}
          end
      | None =>
          match get_property COMMANDS cmd with
          | Undefined =>
              append {| command := trimmed;
                        output := Message red
                          ("Command not found: " +:+ cmd
                           +:+ ". Type 'help' for available commands.");
                        timestamp := now |}
          | Inherited _ =>
              throw (TypeError "commandHandler.execute is not a function")
          | OwnCommand commandHandler =>
              match execute commandHandler args with
              | Some output =>
                  append {| command := trimmed; output := output;
                            timestamp := now |}
              | None => mret tt
              end
          end
      end.

Definition handleKeyDown (now : Date) (key : string) : M unit :=
  st ← render;
  let commandHistory := commandHistory st in
  let commandIndex := commandIndex st in
  if String.eqb key "Enter" then
    executeCommand now (currentInput st) ;;
    setCurrentInput "" ;;
    setCommandIndex (-1)
  else if String.eqb key "ArrowUp" then
    if (0 <? length commandHistory)%nat then
      let newIndex :=
        if (commandIndex =? -1)%Z then (Z.of_nat (length commandHistory) - 1)%Z
        else Z.max 0 (commandIndex - 1) in
      setCommandIndex newIndex ;;
      match command <$> at_index commandHistory newIndex with
      | Some cmd =>
          if truthy cmd && negb (String.eqb cmd "welcome")
          then setCurrentInput cmd else mret tt
      | None => mret tt
      end
    else mret tt
  else if String.eqb key "ArrowDown" then
    if (0 <=? commandIndex)%Z then
      let newIndex := (commandIndex + 1)%Z in
      if (Z.of_nat (length commandHistory) <=? newIndex)%Z then
        setCommandIndex (-1) ;;
        setCurrentInput ""
      else
        setCommandIndex newIndex ;;
        match at_index commandHistory newIndex with
        | Some entry => setCurrentInput (command entry)
        | None => throw (TypeError "Cannot read properties of undefined")
        end
    else mret tt
  else if String.eqb key "Escape" then call OnClose
  else mret tt.

(** What the user does to the input field. *)
Inductive UIEvent : Set :=
| Change (value : string)
| KeyDown (key : string).

Definition dispatch (now : Date) (ev : UIEvent) : M unit :=
  match ev with
  | Change value => setCurrentInput value
  | KeyDown key => handleKeyDown now key
  end.

(** A session: the events one after the other, each rendered before the
    next one arrives. *)
Fixpoint session (events : list (Date * UIEvent)) : M unit :=
  match events with
  | [] => mret tt
  | (now, ev) :: rest => dispatch now ev ;; session rest
  end.

(** The terminal as it stands once it has been opened at time [now]. *)
Definition opened (now : Date) : World :=
  {| state := {| commandHistory := [welcome now];
                 currentInput := "";
                 commandIndex := (-1)%Z |};
     calls := [] |}.

End CLI.

(** ** The specification's vocabulary *)

(** [q] occurs in [text] when case is ignored. *)
Definition contains_ci (text q : string) : Prop :=
  exists pre post, toLowerCase text = pre +:+ toLowerCase q +:+ post.

(** Two strings are equal up to case. *)
Definition equal_up_to_case (a b : string) : Prop :=
  toLowerCase a = toLowerCase b.

(** The three predicates of the filter engine, as the specification words
    them. *)
Definition query_matches (q : string) (p : Project) : Prop :=
  q = ""
  \/ contains_ci (title p) q
  \/ contains_ci (description p) q
  \/ exists tech, tech ∈ techStack p /\ contains_ci tech q.

Definition domain_matches (ds : gset ProjectDomain) (p : Project) : Prop :=
  ds = ∅ \/ domain p ∈ ds.

(** A type value of a project: its [type] field is that value, or an array
    that holds it. *)
Definition has_type (p : Project) (t : ProjectType) : Prop :=
  match type p with
  | OneType t' => t' = t
  | TypeArray values => t ∈ values
  end.

Definition type_matches (ts : gset ProjectType) (p : Project) : Prop :=
  ts = ∅ \/ exists t, has_type p t /\ t ∈ ts.

Definition passes (q : string) (ds : gset ProjectDomain)
    (ts : gset ProjectType) (p : Project) : Prop :=
  query_matches q p /\ domain_matches ds p /\ type_matches ts p.

(** A project reference [q] hits a project by its id or inside its title. *)
Definition hits (q : string) (p : Project) : Prop :=
  id p = q \/ contains_ci (title p) q.

(** Resolution in two stages, as the specification describes [cat] and
    [open]: an exact id anywhere in the catalog wins over a title match. *)
Definition resolve_two_stage (projects : list Project) (q : string)
    : option Project :=
  match List.find (fun p => String.eqb (id p) q) projects with
  | Some p => Some p
  | None =>
      List.find (fun p => includes (toLowerCase (title p)) (toLowerCase q))
                projects
  end.

(** The world after one more entry went to the history. *)
Definition appended (w : World) (entry : CommandHistory) : World :=
  {| state := {| commandHistory := commandHistory (state w) ++ [entry];
                 currentInput := currentInput (state w);
                 commandIndex := commandIndex (state w) |};
     calls := calls w |}.

(** The world after the history was emptied. *)
Definition cleared (w : World) : World :=
  {| state := {| commandHistory := [];
                 currentInput := currentInput (state w);
                 commandIndex := commandIndex (state w) |};
     calls := calls w |}.

(** The projects a command's output lists. *)
Definition listed (out : option Output) : list Project :=
  match out with
  | Some (ProjectList l _) => l
  | _ => []
  end.

(** The input buffer a session ends with. *)
Definition buffer (r : Completion (unit * World)) : option string :=
  match r with
  | Normal (_, w) => Some (currentInput (state w))
  | Throw _ => None
  end.

(** The output of the entry a command appended last. *)
Definition last_output (r : Completion (unit * World)) : option Output :=
  match r with
  | Normal (_, w) => output <$> last (commandHistory (state w))
  | Throw _ => None
  end.

(** A message of the error or notice kind. *)
Definition is_failure_message (out : Output) : bool :=
  match out with
  | Message className _ => String.eqb className red || String.eqb className yellow
  | _ => false
  end.

(** ** Scenarios *)

(** A catalog, with unique ids, in which the title of an earlier project
    contains the id of a later one. *)
Definition packet_tools : Project :=
  createProject
    {| init_id := "packet-tools";
       init_title := "Data Packet Tools";
       init_domain := DataEngineering;
       init_type := None;
       init_description := "Tools for packet captures.";
       init_longDescription := None;
       init_techStack := ["Python"];
       init_features := None;
       init_github := None; init_docs := None; init_website := None;
       init_pypi := None; init_article := None; init_featured := None;
       init_media := None; init_stats := None |}.

Definition data_project : Project :=
  createProject
    {| init_id := "data";
       init_title := "Warehouse";
       init_domain := DataEngineering;
       init_type := None;
       init_description := "A warehouse.";
       init_longDescription := None;
       init_techStack := ["SQL"];
       init_features := None;
       init_github := None; init_docs := None; init_website := None;
       init_pypi := None; init_article := None; init_featured := None;
       init_media := None; init_stats := None |}.

Definition shadowing_catalog : list Project := [packet_tools; data_project].

(** A host that passes [onNavigateToProject]. *)
Definition navigating_host : CLIProps := {| isOpen := true; navigates := true |}.

(** Typing a line and pressing Enter. *)
Definition enter (line : string) : list UIEvent :=
  [Change line; KeyDown "Enter"].

(** The events of a script, the i-th one happening at time [clock i]. *)
Definition at_times (clock : nat -> Date) (events : list UIEvent)
    : list (Date * UIEvent) :=
  imap (fun i ev => (clock i, ev)) events.

(** [ls], [help], then previous twice; and the same followed by next. *)
Definition recall_twice : list UIEvent :=
  enter "ls" ++ enter "help" ++ [KeyDown "ArrowUp"; KeyDown "ArrowUp"].

Definition recall_twice_then_next : list UIEvent :=
  recall_twice ++ [KeyDown "ArrowDown"].


(** A token of a command line: not empty and free of white space. *)
Definition is_token (t : string) : bool :=
  truthy t && all_chars (fun c => negb (is_white c)) t.

(** A string without the space character. *)
Definition spaceless (t : string) : bool :=
  all_chars (fun c => negb (Ascii.eqb c " ")) t.

(** A string whose last character is not white. *)
Inductive black_ended : string -> Prop :=
| black_one (c : ascii) : is_white c = false -> black_ended (String c "")
| black_more (c : ascii) (s : string) : black_ended s -> black_ended (String c s).

(** A string of ASCII characters: on these the case mappings and [trim]
    of the model are those of the language. *)
Definition is_ascii (s : string) : bool :=
  all_chars (fun c => (N_of_ascii c <? 128)%N) s.

(** The command name [executeCommand] dispatches on. *)
Definition command_name (input : string) : string :=
  toLowerCase (fst (split " " (trim input))).

(** ** The home page around the grid *)

Module Home.

(** The state of the page, one field per [useState]. *)
Record State : Type := {
  selectedProject : option Project;
  searchQuery : string;
  selectedDomains : gset ProjectDomain;
  selectedTypes : gset ProjectType;
  showFilters : bool;
  cliOpen : bool;
}.

(** The updater of [toggleDomain] and of [toggleType]: a copy of the set
    with the value deleted when it is there and added when it is not. *)
Definition toggle {A : Type} `{Countable A} (x : A) (prev : gset A) : gset A :=
  if bool_decide (x ∈ prev) then prev ∖ {[x]} else prev ∪ {[x]}.

Definition toggleDomain (d : ProjectDomain) (st : State) : State :=
  {| selectedProject := selectedProject st;
     searchQuery := searchQuery st;
     selectedDomains := toggle d (selectedDomains st);
     selectedTypes := selectedTypes st;
     showFilters := showFilters st;
     cliOpen := cliOpen st |}.

Definition toggleType (t : ProjectType) (st : State) : State :=
  {| selectedProject := selectedProject st;
     searchQuery := searchQuery st;
     selectedDomains := selectedDomains st;
     selectedTypes := toggle t (selectedTypes st);
     showFilters := showFilters st;
     cliOpen := cliOpen st |}.

Definition clearFilters (st : State) : State :=
  {| selectedProject := selectedProject st;
     searchQuery := "";
     selectedDomains := ∅;
     selectedTypes := ∅;
     showFilters := showFilters st;
     cliOpen := cliOpen st |}.

(** [searchQuery || selectedDomains.size > 0 || selectedTypes.size > 0],
    as the condition it is used for. *)
Definition hasActiveFilters (st : State) : bool :=
  truthy (searchQuery st)
  || (0 <? size (selectedDomains st))%nat
  || (0 <? size (selectedTypes st))%nat.

(** The grid: [filteredProjects] on the page's state. *)
Definition grid (projects : list Project) (st : State) : list Project :=
  filteredProjects projects (searchQuery st) (selectedDomains st)
    (selectedTypes st).

(** [projects.filter(p => p.featured)]. *)
Definition featuredProjects (projects : list Project) : list Project :=
  List.filter (fun p => default false (featured p)) projects.

(** A [setTimeout] whose callback scrolls an element into view. *)
Record Timer : Set := {
  delay : N;
  scrollTo : string;
}.

(** The callback the page hands to the terminal: the new state and the
    timers it starts. *)
Definition handleNavigateToProject (projects : list Project)
    (projectId : string) (st : State) : State * list Timer :=
  match List.find (fun p => String.eqb (id p) projectId) projects with
  | Some project =>
      ({| selectedProject := Some project;
          searchQuery := searchQuery st;
          selectedDomains := selectedDomains st;
          selectedTypes := selectedTypes st;
          showFilters := showFilters st;
          cliOpen := false |},
       [{| delay := 100; scrollTo := "project-" +:+ id project |}])
  | None => (st, [])
  end.

(** The page as the terminal's host: [onClose] and [onNavigateToProject]. *)
Definition host (projects : list Project) (c : HostCall) (st : State) : State :=
  match c with
  | OnClose =>
      {| selectedProject := selectedProject st;
         searchQuery := searchQuery st;
         selectedDomains := selectedDomains st;
         selectedTypes := selectedTypes st;
         showFilters := showFilters st;
         cliOpen := false |}
  | OnNavigateToProject projectId =>
      fst (handleNavigateToProject projects projectId st)
  end.

End Home.

(** ** The case studies page *)

Module CaseStudies.

(** [ids.map(id => projects.find(p => p.id === id)).filter(Boolean)]. *)
Definition featuredProjects (projects : list Project)
    (featuredProjectIds : list string) : list Project :=
  omap (fun o => o)
    (map (fun i => List.find (fun p => String.eqb (id p) i) projects)
         featuredProjectIds).

Definition featuredProjectIds : list string :=
  ["lock-and-key"; "owl-watch"; "horizonsec"; "the-deployment-forge"].

End CaseStudies.

(** ** The hero's rotating tagline *)

Module Hero.

Definition taglines : list string :=
  [ "Building secure systems";
    "Automating security workflows";
    "Bridging dev & security" ].

(** The updater the interval runs: [(prev + 1) % taglines.length]. *)
Definition tick (prev : nat) : nat := (prev + 1) mod length taglines.

(** The index after [n] runs of the interval, from the initial 0. *)
Definition currentTagline (n : nat) : nat := Nat.iter n tick 0.

End Hero.

(** ** The project card *)

Module Card.

(** The technologies a card shows, [techStack.slice(0, 4)], and the count
    of its [+N] badge, shown when [techStack.length > 4]. *)
Definition shown (p : Project) : list string := take 4 (techStack p).

Definition badge (p : Project) : option nat :=
  if (4 <? length (techStack p))%nat then Some (length (techStack p) - 4)
  else None.

End Card.

(** ** The theme provider ([src/components/ThemeProvider.tsx]) *)

Module Theme.

(** The provider's state.  The two names are strings: what is read from the
    store is cast, not checked. *)
Record State : Set := {
  themeName : string;
  colorMode : string;
  mounted : bool;
}.

Definition initial : State :=
  {| themeName := "security"; colorMode := "dark"; mounted := false |}.

(** [localStorage]: [None] when it is missing or touching it throws, else
    the items it holds.  A store that is there accepts what is written. *)
Definition Storage : Type := option (gmap string string).

(** What the effects do to the page: the theme last handed to
    [applyTheme(getTheme(..))] and the [dark] class of the root element. *)
Record Page : Set := {
  applied : option (string * string);
  darkClass : bool;
}.

(** [value && set(value)] for what [getItem] returned. *)
Definition truthy_item (o : option string) : option string :=
  match o with
  | Some v => if truthy v then Some v else None
  | None => None
  end.

(** The effect that runs once, after the first render: it marks the
    provider mounted and takes over what the store holds. *)
Definition loadEffect (store : Storage) (st : State) : State :=
  match store with
  | None => {| themeName := themeName st; colorMode := colorMode st;
               mounted := true |}
  | Some items =>
      {| themeName := default (themeName st) (truthy_item (items !! "theme"));
         colorMode := default (colorMode st) (truthy_item (items !! "colorMode"));
         mounted := true |}
  end.

(** The effect on [themeName], [colorMode] and [mounted], for the values the
    render closed over: it applies the theme and, once mounted, stores the
    two names. *)
Definition applyEffect (st : State) (store : Storage) : Page * Storage :=
  let page := {| applied := Some (themeName st, colorMode st);
                 darkClass := String.eqb (colorMode st) "dark" |} in
  if mounted st then
    (page,
     match store with
     | Some items =>
         Some (<["colorMode" := colorMode st]> (<["theme" := themeName st]> items))
     | None => None
     end)
  else (page, store).

(** Mounting the provider: both effects run on the first render's values,
    then the second one again on the values the first one set. *)
Definition mount (store : Storage) : State * Page * Storage :=
  let st := loadEffect store initial in
  let '(_, store1) := applyEffect initial store in
  let '(page, store2) := applyEffect st store1 in
  (st, page, store2).

Definition setThemeName (theme : string) (st : State) : State :=
  {| themeName := theme; colorMode := colorMode st; mounted := mounted st |}.

Definition toggleColorMode (st : State) : State :=
  {| themeName := themeName st;
     colorMode := if String.eqb (colorMode st) "dark" then "light" else "dark";
     mounted := mounted st |}.

End Theme.

(** ** The rows of a project list *)

(** [String(n)] for a natural number. *)
Definition String_of_nat (n : nat) : string :=
  NilEmpty.string_of_uint (Nat.to_uint n).

(** [s.padStart(2, '0')]. *)
Definition padStart2 (s : string) : string :=
  match s with
  | EmptyString => "00"
  | String c EmptyString => String "0" (String c EmptyString)
  | _ => s
  end.

(** The label in front of the row at index [i]:
    [String(i + 1).padStart(2, '0')]. *)
Definition rowLabel (i : nat) : string := padStart2 (String_of_nat (i + 1)).

(** The number a string of digits stands for. *)
Definition parse_nat (s : string) : option nat :=
  Nat.of_uint <$> NilEmpty.uint_of_string s.

(** The cursor of the history is off, or on an entry. *)
Definition cursor_ok (st : CLIState) : Prop :=
  (commandIndex st = -1
   \/ 0 <= commandIndex st < Z.of_nat (length (commandHistory st)))%Z.

(** The world with another input buffer and cursor. *)
Definition with_cursor (w : World) (input : string) (i : Z) : World :=
  {| state := {| commandHistory := commandHistory (state w);
                 currentInput := input;
                 commandIndex := i |};
     calls := calls w |}.

(** The world after one more call of a host callback. *)
Definition called (w : World) (c : HostCall) : World :=
  {| state := state w; calls := calls w ++ [c] |}.

(** The entry a line appends. *)
Definition entry_of (input : string) (out : Output) (now : Date)
    : CommandHistory :=
  {| command := trim input; output := out; timestamp := now |}.

(** ** Strings: the facts the claims rest on *)

Lemma append_nil (t : string) : "" +:+ t = t.
Proof. reflexivity. Qed.

Lemma append_cons (c : ascii) (s t : string) :
  String c s +:+ t = String c (s +:+ t).
Proof. reflexivity. Qed.

Ltac norm_append := rewrite ?append_cons, ?append_nil in *.

Lemma append_empty_r (s : string) : s +:+ "" = s.
Proof. induction s as [|c s IH]; norm_append; [reflexivity | now f_equal]. Qed.

Lemma append_assoc (a b c : string) : (a +:+ b) +:+ c = a +:+ (b +:+ c).
Proof. induction a as [|x a IH]; norm_append; [reflexivity | now f_equal]. Qed.

Lemma startsWith_spec (s sub : string) :
  startsWith s sub = true <-> exists post, s = sub +:+ post.
Proof.
  revert s. induction sub as [|b sub IH]; intros s; simpl.
  - split; [intros _; now exists s | intros _; destruct s; reflexivity].
  - destruct s as [|a s]; simpl.
    + split; [discriminate | intros [post H]; discriminate].
    + rewrite andb_true_iff, Ascii.eqb_eq, IH. split.
      * intros [-> [post ->]]. now exists post.
      * intros [post H]. norm_append. injection H as -> ->.
        split; [reflexivity | now exists post].
Qed.

Lemma includes_spec (s sub : string) :
  includes s sub = true <-> exists pre post, s = pre +:+ sub +:+ post.
Proof.
  induction s as [|a s IH].
  - cbn [includes]. rewrite orb_false_r, startsWith_spec. split.
    + intros [post H]. now exists "", post.
    + intros [pre [post H]]. destruct pre; [now exists post | discriminate].
  - cbn [includes]. rewrite orb_true_iff, startsWith_spec, IH. split.
    + intros [[post H] | [pre [post H]]].
      * now exists "", post.
      * exists (String a pre), post. norm_append. now rewrite H.
    + intros [pre [post H]]. destruct pre as [|x pre].
      * left. now exists post.
      * right. norm_append. injection H as -> ->. now exists pre, post.
Qed.

Lemma includes_empty (s : string) : includes s "" = true.
Proof. destruct s; reflexivity. Qed.

Lemma includes_contains_ci (text q : string) :
  includes (toLowerCase text) (toLowerCase q) = true <-> contains_ci text q.
Proof. apply includes_spec. Qed.

Lemma truthy_false (s : string) : truthy s = false <-> s = "".
Proof. destruct s; simpl; split; congruence. Qed.

Lemma truthy_true (s : string) : truthy s = true <-> s <> "".
Proof. destruct s; simpl; split; congruence. Qed.

Lemma map_chars_app (f : ascii -> ascii) (a b : string) :
  map_chars f (a +:+ b) = map_chars f a +:+ map_chars f b.
Proof.
  induction a as [|c a IH]; norm_append; [reflexivity |].
  simpl. norm_append. now f_equal.
Qed.

Lemma lower_char_idem (c : ascii) : lower_char (lower_char c) = lower_char c.
Proof. destruct c as [[] [] [] [] [] [] [] []]; reflexivity. Qed.

Lemma lower_upper_char (c : ascii) : lower_char (upper_char c) = lower_char c.
Proof. destruct c as [[] [] [] [] [] [] [] []]; reflexivity. Qed.

Lemma upper_lower_char (c : ascii) : upper_char (lower_char c) = upper_char c.
Proof. destruct c as [[] [] [] [] [] [] [] []]; reflexivity. Qed.

Lemma toLowerCase_idem (s : string) : toLowerCase (toLowerCase s) = toLowerCase s.
Proof.
  induction s as [|c s IH]; [reflexivity |].
  unfold toLowerCase in *. simpl. now rewrite lower_char_idem, IH.
Qed.

Lemma toLowerCase_toUpperCase (s : string) :
  toLowerCase (toUpperCase s) = toLowerCase s.
Proof.
  induction s as [|c s IH]; [reflexivity |].
  unfold toLowerCase, toUpperCase in *. simpl. now rewrite lower_upper_char, IH.
Qed.

(** The first-letter normalisation of [filter] is invisible to a comparison
    of lowercased strings. *)
Lemma toLowerCase_capitalised (s : string) :
  toLowerCase (toUpperCase (charAt0 s) +:+ toLowerCase (slice1 s)) = toLowerCase s.
Proof.
  unfold toLowerCase at 1. rewrite map_chars_app.
  fold (toLowerCase (toUpperCase (charAt0 s))).
  fold (toLowerCase (toLowerCase (slice1 s))).
  rewrite toLowerCase_toUpperCase, toLowerCase_idem.
  destruct s; reflexivity.
Qed.

(** Strings that agree up to case are capitalised to the same string. *)
Lemma capitalised_up_to_case (a b : string) :
  equal_up_to_case a b ->
  toUpperCase (charAt0 a) +:+ toLowerCase (slice1 a)
  = toUpperCase (charAt0 b) +:+ toLowerCase (slice1 b).
Proof.
  unfold equal_up_to_case, toLowerCase, toUpperCase.
  destruct a as [|x a], b as [|y b]; simpl; try discriminate; [reflexivity |].
  intros H. injection H as Hc Hs. rewrite Hs. f_equal. f_equal.
  now rewrite <- (upper_lower_char x), Hc, upper_lower_char.
Qed.

(** ** The filter engine *)

Lemma no_selection {A : Type} `{Countable A} (X : gset A) :
  (0 <? size X)%nat = false <-> X = ∅.
Proof.
  rewrite Nat.ltb_ge. split.
  - intros Hs. apply leibniz_equiv, size_empty_iff. lia.
  - intros ->. rewrite size_empty. lia.
Qed.

Lemma matchesSearch_spec (q : string) (p : Project) :
  matchesSearch (toLowerCase q) p = true
  <-> contains_ci (title p) q
      \/ contains_ci (description p) q
      \/ exists tech, tech ∈ techStack p /\ contains_ci tech q.
Proof.
  unfold matchesSearch.
  rewrite !orb_true_iff, existsb_exists, !includes_contains_ci. split.
  - intros [[Ht | Hd] | [tech [Hin Hc]]]; [now left | now right; left |].
    right; right. exists tech.
    split; [now apply list_elem_of_In | now apply includes_contains_ci].
  - intros [Ht | [Hd | [tech [Hin Hc]]]]; [now left; left | now left; right |].
    right. exists tech.
    split; [now apply list_elem_of_In | now apply includes_contains_ci].
Qed.

Lemma query_guard (q : string) (p : Project) :
  truthy q && negb (matchesSearch (toLowerCase q) p) = false
  <-> query_matches q p.
Proof.
  unfold query_matches. rewrite <- matchesSearch_spec, <- truthy_false.
  destruct (truthy q), (matchesSearch (toLowerCase q) p); simpl; intuition congruence.
Qed.

Lemma domain_guard (ds : gset ProjectDomain) (p : Project) :
  (0 <? size ds)%nat && negb (bool_decide (domain p ∈ ds)) = false
  <-> domain_matches ds p.
Proof.
  unfold domain_matches. rewrite <- no_selection.
  destruct (0 <? size ds)%nat; simpl.
  - rewrite negb_false_iff, bool_decide_eq_true. intuition congruence.
  - intuition.
Qed.

(** [projectTypes] lists the type values: the single one, or the array's. *)
Lemma projectTypes_has_type (p : Project) (t : ProjectType) :
  t ∈ projectTypes p <-> has_type p t.
Proof.
  unfold projectTypes, has_type. destruct (type p) as [t' | values].
  - rewrite list_elem_of_singleton. split; congruence.
  - reflexivity.
Qed.

Lemma type_guard (ts : gset ProjectType) (p : Project) :
  (0 <? size ts)%nat
  && negb (existsb (fun t => bool_decide (t ∈ ts)) (projectTypes p)) = false
  <-> type_matches ts p.
Proof.
  unfold type_matches. rewrite <- no_selection.
  assert (Hex : existsb (fun t => bool_decide (t ∈ ts)) (projectTypes p) = true
                <-> exists t, has_type p t /\ t ∈ ts).
  { rewrite existsb_exists. split; intros [t [H1 H2]]; exists t.
    - split; [now apply projectTypes_has_type, list_elem_of_In
             | now apply bool_decide_eq_true in H2].
    - split; [now apply list_elem_of_In, projectTypes_has_type
             | now apply bool_decide_eq_true]. }
  destruct (0 <? size ts)%nat; simpl.
  - rewrite negb_false_iff, Hex. intuition congruence.
  - intuition.
Qed.

(** The callback accepts exactly the projects that pass the three
    predicates. *)
Lemma filterCallback_passes (q : string) (ds : gset ProjectDomain)
    (ts : gset ProjectType) (p : Project) :
  filterCallback q ds ts p = true <-> passes q ds ts p.
Proof.
  unfold filterCallback, passes.
  rewrite <- query_guard, <- domain_guard, <- type_guard.
  destruct (truthy q && negb (matchesSearch (toLowerCase q) p));
    [intuition congruence |].
  destruct ((0 <? size ds)%nat && negb (bool_decide (domain p ∈ ds)));
    [intuition congruence |].
  destruct ((0 <? size ts)%nat
            && negb (existsb (fun t => bool_decide (t ∈ ts)) (projectTypes p)));
    intuition congruence.
Qed.

Lemma filter_sublist {A : Type} (f : A -> bool) (l : list A) :
  sublist (List.filter f l) l.
Proof.
  induction l as [|x l IH]; simpl.
  - constructor.
  - destruct (f x); now constructor.
Qed.

Lemma filter_all {A : Type} (f : A -> bool) (l : list A) :
  (forall x, f x = true) -> List.filter f l = l.
Proof.
  intros Hf. induction l as [|x l IH]; simpl; [reflexivity |].
  now rewrite Hf, IH.
Qed.

(** C1.  For every catalog, query, domain set and type set, the filter
    engine returns exactly the projects that satisfy the conjunction of the
    three predicates (query empty or found, ignoring case, in the title, the
    description or a techStack entry; domain set empty or holding the
    project's domain; type set empty or holding the project's type, or one
    of them when its type is an array),
    and the result keeps the catalog's order: it is the catalog with the
    failing projects struck out, a project at a time. *)
Theorem filteredProjects_exact (projects : list Project) (q : string)
    (ds : gset ProjectDomain) (ts : gset ProjectType) :
  (forall p, p ∈ filteredProjects projects q ds ts
             <-> p ∈ projects /\ passes q ds ts p)
  /\ sublist (filteredProjects projects q ds ts) projects
  /\ filteredProjects [] q ds ts = []
  /\ (forall p rest, passes q ds ts p ->
        filteredProjects (p :: rest) q ds ts
        = p :: filteredProjects rest q ds ts)
  /\ (forall p rest, ~ passes q ds ts p ->
        filteredProjects (p :: rest) q ds ts = filteredProjects rest q ds ts).
Proof.
  split; [| split; [| split; [| split]]].
  - intros p. unfold filteredProjects.
    rewrite !list_elem_of_In, filter_In, filterCallback_passes. reflexivity.
  - apply filter_sublist.
  - reflexivity.
  - intros p rest Hp. apply filterCallback_passes in Hp.
    unfold filteredProjects. simpl. now rewrite Hp.
  - intros p rest Hp. unfold filteredProjects. simpl.
    destruct (filterCallback q ds ts p) eqn:E; [| reflexivity].
    now apply filterCallback_passes in E.
Qed.

(** C2.  With the empty query and no domain and no type selected, the
    filter engine returns the catalog itself, in its order. *)
Theorem filteredProjects_unrestricted (projects : list Project) :
  filteredProjects projects "" ∅ ∅ = projects.
Proof.
  unfold filteredProjects. apply filter_all. intros p.
  apply filterCallback_passes. repeat split; now left.
Qed.

(** ** Resolving a project reference *)

Lemma find_first {A : Type} (f : A -> bool) (l : list A) (x : A) :
  List.find f l = Some x
  <-> exists before after,
        l = before ++ x :: after /\ f x = true
        /\ forall y, y ∈ before -> f y = false.
Proof.
  split.
  - induction l as [|a l IH]; simpl; [discriminate |].
    destruct (f a) eqn:Ea.
    + intros [= ->]. exists [], l. repeat split; [assumption |].
      intros y Hy. inversion Hy.
    + intros Hl. destruct (IH Hl) as (before & after & -> & Hx & Hb).
      exists (a :: before), after. repeat split; [assumption |].
      intros y Hy. apply elem_of_cons in Hy as [-> | Hy]; auto.
  - intros (before & after & -> & Hx & Hb).
    induction before as [|a before IH]; simpl.
    + now rewrite Hx.
    + rewrite (Hb a) by apply list_elem_of_here.
      apply IH. intros y Hy. apply Hb. now apply list_elem_of_further.
Qed.

Lemma find_nothing {A : Type} (f : A -> bool) (l : list A) :
  List.find f l = None <-> forall y, y ∈ l -> f y = false.
Proof.
  induction l as [|a l IH]; simpl.
  - split; [intros _ y Hy; inversion Hy | reflexivity].
  - destruct (f a) eqn:Ea.
    + split; [discriminate |]. intros H.
      specialize (H a (list_elem_of_here _ _)). congruence.
    + rewrite IH. split.
      * intros H y Hy. apply elem_of_cons in Hy as [-> | Hy]; auto.
      * intros H y Hy. apply H. now apply list_elem_of_further.
Qed.

Lemma find_ext {A : Type} (f g : A -> bool) (l : list A) :
  (forall y, y ∈ l -> f y = g y) -> List.find f l = List.find g l.
Proof.
  induction l as [|a l IH]; intros H; simpl; [reflexivity |].
  rewrite (H a) by apply list_elem_of_here.
  destruct (g a); [reflexivity |].
  apply IH. intros y Hy. apply H. now apply list_elem_of_further.
Qed.

Lemma hits_spec (q : string) (p : Project) :
  String.eqb (id p) q || includes (toLowerCase (title p)) (toLowerCase q) = true
  <-> hits q p.
Proof.
  unfold hits. now rewrite orb_true_iff, String.eqb_eq, includes_contains_ci.
Qed.

Lemma hits_not (q : string) (p : Project) :
  String.eqb (id p) q || includes (toLowerCase (title p)) (toLowerCase q) = false
  <-> ~ hits q p.
Proof. rewrite <- hits_spec. now destruct (_ || _). Qed.

Lemma truthy_arg_head (q : string) (rest : list string) :
  q <> "" -> truthy_arg ((q :: rest) !! 0) = Some q.
Proof. intros Hq. simpl. now apply truthy_true in Hq as ->. Qed.

(** Without an exact id in the catalog, one pass and two stages agree. *)
Lemma findProject_without_id (projects : list Project) (q : string) :
  (forall p, p ∈ projects -> id p <> q) ->
  findProject projects q = resolve_two_stage projects q.
Proof.
  intros Hid. unfold findProject, resolve_two_stage.
  assert (Hnone : List.find (fun p => String.eqb (id p) q) projects = None).
  { apply find_nothing. intros p Hp. apply String.eqb_neq. now apply Hid. }
  rewrite Hnone. apply find_ext. intros p Hp.
  apply Hid, String.eqb_neq in Hp. now rewrite Hp.
Qed.

(** C3, as the code has it.  [cat] and [open] resolve a reference [q] in one
    pass: the result is the first project, in catalog order, whose id equals
    [q] or whose title contains [q] when case is ignored; there is none
    exactly when no project is hit.  When no project's id equals [q] this is
    the first title match, as with a resolution in two stages; a project
    whose id equals [q] is the result when no earlier project is hit. *)
Theorem findProject_first_hit (projects : list Project) (q : string) :
  (forall p, findProject projects q = Some p
             <-> exists before after,
                   projects = before ++ p :: after /\ hits q p
                   /\ forall p', p' ∈ before -> ~ hits q p')
  /\ (findProject projects q = None <-> forall p, p ∈ projects -> ~ hits q p)
  /\ ((forall p, p ∈ projects -> id p <> q) ->
      findProject projects q = resolve_two_stage projects q)
  /\ (forall rest, q <> "" ->
      cat_execute projects (q :: rest)
      = Some match findProject projects q with
             | Some p => ProjectDetails p
             | None => Message red "Project not found. Use 'ls' to see available projects."
             end).
Proof.
  unfold findProject. repeat split.
  - intros H. apply find_first in H as (before & after & -> & Hp & Hb).
    exists before, after. repeat split; [now apply hits_spec |].
    intros p' Hp'. apply hits_not. now apply Hb.
  - intros (before & after & -> & Hp & Hb). apply find_first.
    exists before, after. repeat split; [now apply hits_spec |].
    intros p' Hp'. apply hits_not. now apply Hb.
  - intros H p Hp. apply hits_not. revert p Hp. now apply find_nothing.
  - intros H. apply find_nothing. intros p Hp. apply hits_not. now apply H.
  - apply findProject_without_id.
  - intros rest Hq. unfold cat_execute. rewrite truthy_arg_head by assumption.
    unfold findProject. now destruct (List.find _ projects).
Qed.

(** C3, as the specification words it, fails.  In a catalog with unique
    ids whose first project is titled "Data Packet Tools" and whose second
    project has the id "data", the reference "data" resolves to the first
    project, although the second one has exactly that id. *)
Lemma findProject_earlier_title_wins :
  NoDup (map id shadowing_catalog)
  /\ data_project ∈ shadowing_catalog
  /\ id data_project = "data"
  /\ findProject shadowing_catalog "data" = Some packet_tools
  /\ resolve_two_stage shadowing_catalog "data" = Some data_project
  /\ findProject shadowing_catalog "data" <> Some data_project.
Proof.
  split; [| split; [| split; [| split; [| split]]]].
  - apply (bool_decide_unpack _). vm_compute. exact I.
  - unfold shadowing_catalog. apply list_elem_of_further, list_elem_of_here.
  - reflexivity.
  - vm_compute. reflexivity.
  - vm_compute. reflexivity.
  - vm_compute. discriminate.
Qed.

(** On the shipped catalog no title contains the id of a later project, so
    the single pass and the two stages agree there for every reference. *)
Lemma shipped_catalog_two_stage (q : string) :
  findProject Data.projects q = resolve_two_stage Data.projects q.
Proof.
  destruct (decide (q ∈ map id Data.projects)) as [Hin | Hout].
  - set (ids := map id Data.projects) in Hin. vm_compute in ids. subst ids.
    repeat (apply elem_of_cons in Hin as [-> | Hin]; [vm_compute; reflexivity |]).
    inversion Hin.
  - apply findProject_without_id. intros p Hp <-.
    apply Hout. now apply list_elem_of_fmap_2.
Qed.

(** ** The interpreter *)

Lemma trimStart_white (s : string) :
  all_chars is_white s = true -> trimStart s = "".
Proof.
  induction s as [|c s IH]; simpl; [reflexivity |].
  intros H. apply andb_true_iff in H as [Hc Hs]. rewrite Hc. now apply IH.
Qed.

Lemma trim_white (s : string) : all_chars is_white s = true -> trim s = "".
Proof. intros H. unfold trim. now rewrite trimStart_white. Qed.

(** Opening the terminal from its initial state shows the welcome entry. *)
Lemma openEffect_opened (props : CLIProps) (now : Date) :
  isOpen props = true ->
  openEffect props now {| state := initialState; calls := [] |}
  = Normal (tt, opened now).
Proof. intros H. unfold openEffect. now rewrite H. Qed.

(** C10.  A line that is empty or made of white space only does nothing:
    [executeCommand] returns with the history, the rest of the state and the
    trace of callbacks as they were; submitted with Enter, such a line
    leaves the history and the trace untouched as well. *)
Theorem blank_line_is_noop (projects : list Project) (props : CLIProps)
    (now : Date) (input : string) (w : World) :
  all_chars is_white input = true ->
  executeCommand projects props now input w = Normal (tt, w)
  /\ (currentInput (state w) = input ->
      handleKeyDown projects props now "Enter" w
      = Normal (tt, {| state := {| commandHistory := commandHistory (state w);
                                   currentInput := "";
                                   commandIndex := (-1)%Z |};
                       calls := calls w |})).
Proof.
  intros Hw.
  assert (He : executeCommand projects props now input w = Normal (tt, w)).
  { unfold executeCommand. now rewrite trim_white. }
  split; [exact He |].
  intros Hin. unfold handleKeyDown, mbind, M_bind, render. simpl.
  rewrite Hin, He. reflexivity.
Qed.

(** Three spaces, typed into the freshly opened terminal. *)
Lemma blank_line_is_noop_witness :
  executeCommand Data.projects navigating_host 0%N "   " (opened 0%N)
  = Normal (tt, opened 0%N).
Proof.
  exact (proj1 (blank_line_is_noop Data.projects navigating_host 0%N "   "
                  (opened 0%N) eq_refl)).
Defined.

(** C8.  [clear] empties the history and appends nothing; a [help] run
    next appends its output to the empty history, which then has length 1. *)
Theorem clear_then_help (projects : list Project) (props : CLIProps)
    (now now' : Date) (w : World) :
  executeCommand projects props now "clear" w = Normal (tt, cleared w)
  /\ executeCommand projects props now' "help" (cleared w)
     = Normal (tt, appended (cleared w)
                     {| command := "help"; output := HelpText;
                        timestamp := now' |})
  /\ commandHistory
       (state (appended (cleared w)
                 {| command := "help"; output := HelpText; timestamp := now' |}))
     = [{| command := "help"; output := HelpText; timestamp := now' |}]
  /\ length
       (commandHistory
          (state (appended (cleared w)
                    {| command := "help"; output := HelpText;
                       timestamp := now' |}))) = 1.
Proof. repeat split. Qed.

(** C9, where the code falls short of it.  The line [constructor] names no
    command, yet [COMMANDS[cmd]] finds the member every object inherits, the
    guard for unknown commands lets it through, and calling its missing
    [execute] throws: nothing is appended to the history.  The line
    [__proto__] goes the same way. *)
Theorem constructor_command_throws (projects : list Project)
    (props : CLIProps) (now : Date) (w : World) :
  executeCommand projects props now "constructor" w
  = Throw (TypeError "commandHandler.execute is not a function")
  /\ executeCommand projects props now "__proto__" w
     = Throw (TypeError "commandHandler.execute is not a function").
Proof. split; reflexivity. Qed.

Lemma inherited_lowercase (cmd : string) :
  toLowerCase cmd = cmd ->
  existsb (String.eqb cmd) Object_prototype_keys = true ->
  cmd = "constructor" \/ cmd = "__proto__".
Proof.
  intros Hl He. apply existsb_exists in He as [k [Hin Hk]].
  apply String.eqb_eq in Hk. subst k. simpl in Hin.
  repeat (destruct Hin as [<- | Hin];
          [first [now left | now right | vm_compute in Hl; discriminate] |]).
  destruct Hin.
Qed.

(** X11.  Every other line is executed to completion: the two inherited names
    that survive lowercasing are the only lines that throw. *)
Lemma executeCommand_completes (projects : list Project) (props : CLIProps)
    (now : Date) (input : string) (w : World) :
  command_name input <> "constructor" ->
  command_name input <> "__proto__" ->
  exists w', executeCommand projects props now input w = Normal (tt, w').
Proof.
  unfold command_name, executeCommand. intros Hc Hp.
  destruct (truthy (trim input)); simpl; [| now eexists].
  destruct (split " " (trim input)) as [command args]. simpl in Hc, Hp.
  destruct (String.eqb (toLowerCase command) "exit"); [now eexists |].
  destruct (String.eqb (toLowerCase command) "clear"); [now eexists |].
  destruct (if String.eqb (toLowerCase command) "open"
            then truthy_arg (args !! 0) else None) as [arg0 |].
  - destruct (findProject projects arg0) as [p |]; [| now eexists].
    destruct (navigates props); now eexists.
  - unfold get_property.
    destruct (own_property (COMMANDS projects) (toLowerCase command)) as [c |].
    + destruct (execute c args); now eexists.
    + destruct (existsb _ Object_prototype_keys) eqn:E; [| now eexists].
      apply inherited_lowercase in E as [E | E]; [| | apply toLowerCase_idem];
        congruence.
Qed.

(** X12.  The message for a command the table does not know names the command,
    in lower case, and points to [help]. *)
Lemma unknown_command_message (projects : list Project) (props : CLIProps)
    (now : Date) (input : string) (w : World) :
  trim input <> "" ->
  get_property (COMMANDS projects) (command_name input) = Undefined ->
  let text := "Command not found: " +:+ command_name input
              +:+ ". Type 'help' for available commands." in
  executeCommand projects props now input w
  = Normal (tt, appended w {| command := trim input;
                              output := Message red text;
                              timestamp := now |})
  /\ includes text (command_name input) = true
  /\ includes text "help" = true.
Proof.
  intros Ht Hg text. split; [| split].
  - unfold command_name, executeCommand in *. apply truthy_true in Ht.
    rewrite Ht. simpl. subst text.
    destruct (split " " (trim input)) as [command args]. simpl fst in *.
    destruct (String.eqb (toLowerCase command) "exit") eqn:E1;
      [apply String.eqb_eq in E1; rewrite E1 in Hg; discriminate |].
    destruct (String.eqb (toLowerCase command) "clear") eqn:E2;
      [apply String.eqb_eq in E2; rewrite E2 in Hg; discriminate |].
    destruct (String.eqb (toLowerCase command) "open") eqn:E3;
      [apply String.eqb_eq in E3; rewrite E3 in Hg; discriminate |].
    now rewrite Hg.
  - apply includes_spec. now eexists _, _.
  - apply includes_spec.
    exists ("Command not found: " +:+ command_name input +:+ ". Type '"),
           "' for available commands.".
    subst text. rewrite !append_assoc. reflexivity.
Qed.

(** C5, as the specification words it, fails: on the shipped catalog,
    after [ls] and [help], previous twice and next once leave the buffer
    different from "ls". *)
Lemma recall_next_is_not_ls :
  buffer (session Data.projects navigating_host
            (at_times (fun _ => 0%N) recall_twice_then_next) (opened 0%N))
  <> Some "ls".
Proof. vm_compute. discriminate. Qed.

(** C5, as the code has it.  From a freshly opened terminal, after [ls] and
    then [help], pressing previous twice leaves "ls" in the input buffer,
    and pressing next once more moves forward again, to "help". *)
Theorem recall_previous_previous_next (projects : list Project)
    (props : CLIProps) (clock : nat -> Date) (now : Date) :
  buffer (session projects props (at_times clock recall_twice) (opened now))
  = Some "ls"
  /\ buffer (session projects props (at_times clock recall_twice_then_next)
               (opened now))
     = Some "help".
Proof. split; reflexivity. Qed.

Lemma split_nonempty (s command : string) (arg0 : string) (rest : list string) :
  split " " s = (command, arg0 :: rest) -> truthy s = true.
Proof. destruct s; [discriminate | reflexivity]. Qed.

(** C4.  When the argument of [open] resolves to no project, an error
    message goes to the history and the trace of callbacks stays as it was;
    when it resolves and the host passed a navigation callback, that
    callback is called once, with the id of the resolved project, and the
    confirmation goes to the history. *)
Theorem open_navigates_when_resolved (projects : list Project)
    (props : CLIProps) (now : Date) (input command q : string)
    (rest : list string) (w : World) :
  split " " (trim input) = (command, q :: rest) ->
  toLowerCase command = "open" ->
  (findProject projects q = None ->
   exists text,
     executeCommand projects props now input w
     = Normal (tt, appended w {| command := trim input;
                                 output := Message red text;
                                 timestamp := now |}))
  /\ (forall p, q <> "" -> findProject projects q = Some p ->
      navigates props = true ->
      executeCommand projects props now input w
      = Normal (tt, appended
                      {| state := state w;
                         calls := calls w ++ [OnNavigateToProject (id p)] |}
                      {| command := trim input;
                         output := Message green ("Opening project: " +:+ title p);
                         timestamp := now |})).
Proof.
  intros Hs Hc. pose proof (split_nonempty _ _ _ _ Hs) as Ht.
  unfold executeCommand. rewrite Ht, Hs, Hc. cbn [negb].
  change (String.eqb "open" "exit") with false.
  change (String.eqb "open" "clear") with false.
  change (String.eqb "open" "open") with true.
  cbv iota. split.
  - intros Hnone. destruct (truthy_arg ((q :: rest) !! 0)) as [arg0 |] eqn:Ea.
    + assert (arg0 = q) as ->.
      { simpl in Ea. destruct (truthy q); congruence. }
      rewrite Hnone. now eexists.
    + change (get_property (COMMANDS projects) "open")
        with (OwnCommand {| summary := "Open a project by ID";
                            execute := open_execute projects |}).
      cbn [execute]. unfold open_execute. rewrite Ea. now eexists.
  - intros p Hq Hp Hn. rewrite truthy_arg_head by assumption.
    rewrite Hp, Hn. reflexivity.
Qed.

(** [open lock-and-key] on the shipped catalog: one call of the navigation
    callback, with "lock-and-key". *)
Lemma open_lock_and_key :
  executeCommand Data.projects navigating_host 7%N "open lock-and-key"
    (opened 0%N)
  = Normal (tt, {| state :=
                     {| commandHistory :=
                          [ welcome 0%N;
                            {| command := "open lock-and-key";
                               output := Message green "Opening project: Lock-And-Key";
                               timestamp := 7%N |} ];
                        currentInput := "";
                        commandIndex := (-1)%Z |};
                   calls := [OnNavigateToProject "lock-and-key"] |}).
Proof.
  exact (proj2 (open_navigates_when_resolved Data.projects navigating_host 7%N
                  "open lock-and-key" "open" "lock-and-key" [] (opened 0%N)
                  eq_refl eq_refl)
               (createProject Data.lock_and_key)
               ltac:(discriminate) eq_refl eq_refl).
Defined.

(** ** Tokens *)

Lemma split_spaceless (t : string) :
  spaceless t = true -> split " " t = (t, []).
Proof.
  unfold spaceless. induction t as [|c t IH]; simpl; [reflexivity |].
  intros H. apply andb_true_iff in H as [Hc Ht].
  rewrite (IH Ht). apply negb_true_iff in Hc. now rewrite Hc.
Qed.

Lemma split_field (t s : string) :
  spaceless t = true ->
  split " " (t +:+ " " +:+ s)
  = (t, fst (split " " s) :: snd (split " " s)).
Proof.
  unfold spaceless. induction t as [|c t IH]; intros H.
  - norm_append. simpl. now destruct (split " " s).
  - simpl in H. apply andb_true_iff in H as [Hc Ht].
    norm_append. simpl. rewrite (IH Ht). apply negb_true_iff in Hc.
    now rewrite Hc.
Qed.

Lemma split_join (command : string) (args : list string) :
  Forall (fun t => spaceless t = true) (command :: args) ->
  split " " (join " " (command :: args)) = (command, args).
Proof.
  revert command. induction args as [|a args IH]; intros command H.
  - simpl. apply split_spaceless. now inversion H.
  - inversion H as [|? ? Hc Hrest]; subst.
    change (join " " (command :: a :: args))
      with (command +:+ " " +:+ join " " (a :: args)).
    rewrite split_field by assumption. now rewrite (IH a Hrest).
Qed.

Lemma split_fields (s command : string) (args : list string) :
  split " " s = (command, args) ->
  join " " (command :: args) = s
  /\ Forall (fun t => spaceless t = true) (command :: args).
Proof.
  revert command args. induction s as [|c s IH]; intros command args.
  - intros [= <- <-]. split; [reflexivity | repeat constructor].
  - simpl. destruct (split " " s) as [field fields].
    destruct (IH field fields eq_refl) as [Hj Hf].
    destruct (Ascii.eqb c " ") eqn:Ec; intros [= <- <-].
    + apply Ascii.eqb_eq in Ec as ->. split.
      * change (join " " ("" :: field :: fields))
          with ("" +:+ " " +:+ join " " (field :: fields)).
        now rewrite Hj.
      * constructor; [reflexivity | assumption].
    + apply Forall_cons in Hf as [Hfield Hrest]. split.
      * rewrite <- Hj. now destruct fields.
      * constructor; [| assumption].
        unfold spaceless in *. simpl. now rewrite Ec, Hfield.
Qed.

Lemma token_spaceless (t : string) : is_token t = true -> spaceless t = true.
Proof.
  unfold is_token, spaceless. intros H. apply andb_true_iff in H as [_ H].
  induction t as [|c t IH]; simpl in *; [reflexivity |].
  apply andb_true_iff in H as [Hc Ht]. rewrite (IH Ht), andb_true_r.
  destruct (Ascii.eqb c " ") eqn:Ec; [| reflexivity].
  apply Ascii.eqb_eq in Ec as ->. discriminate.
Qed.

Lemma trimStart_pad (pad s : string) :
  all_chars is_white pad = true -> trimStart (pad +:+ s) = trimStart s.
Proof.
  induction pad as [|c pad IH]; intros H; norm_append; [reflexivity |].
  simpl in *. apply andb_true_iff in H as [Hc Hp]. rewrite Hc. now apply IH.
Qed.

Lemma trimEnd_white (pad : string) :
  all_chars is_white pad = true -> trimEnd pad = "".
Proof.
  induction pad as [|c pad IH]; simpl; [reflexivity |].
  intros H. apply andb_true_iff in H as [Hc Hp]. now rewrite (IH Hp), Hc.
Qed.

Lemma trimEnd_pad (s pad : string) :
  all_chars is_white pad = true -> trimEnd (s +:+ pad) = trimEnd s.
Proof.
  intros H. induction s as [|c s IH]; norm_append.
  - now apply trimEnd_white.
  - simpl. now rewrite IH.
Qed.

Lemma trimEnd_black (s : string) : black_ended s -> trimEnd s = s.
Proof.
  induction 1 as [c Hc | c s Hs IH]; simpl.
  - now rewrite Hc.
  - rewrite IH. now destruct Hs.
Qed.

Lemma black_ended_app (a b : string) : black_ended b -> black_ended (a +:+ b).
Proof.
  intros Hb. induction a as [|c a IH]; norm_append; [assumption |].
  now constructor.
Qed.

Lemma token_black_ended (t : string) : is_token t = true -> black_ended t.
Proof.
  unfold is_token. intros H. apply andb_true_iff in H as [Hne H].
  induction t as [|c t IH]; [discriminate |].
  simpl in H. apply andb_true_iff in H as [Hc Ht].
  apply negb_true_iff in Hc. destruct t as [|c' t].
  - now constructor.
  - constructor. now apply IH.
Qed.

Lemma join_black_ended (command : string) (args : list string) :
  Forall (fun t => is_token t = true) (command :: args) ->
  black_ended (join " " (command :: args)).
Proof.
  revert command. induction args as [|a args IH]; intros command H;
    inversion H as [|? ? Hc Hrest]; subst.
  - simpl. now apply token_black_ended.
  - change (join " " (command :: a :: args))
      with (command +:+ " " +:+ join " " (a :: args)).
    apply black_ended_app, black_ended_app. now apply IH.
Qed.

Lemma trimStart_token (t s : string) :
  is_token t = true -> trimStart (t +:+ s) = t +:+ s.
Proof.
  unfold is_token. destruct t as [|c t]; [discriminate |].
  simpl. intros H. apply andb_true_iff in H as [Hc _].
  apply negb_true_iff in Hc. norm_append. simpl. now rewrite Hc.
Qed.

Lemma join_head (command : string) (args : list string) :
  exists s, join " " (command :: args) = command +:+ s.
Proof.
  destruct args as [|a args].
  - exists "". simpl. now rewrite append_empty_r.
  - now exists (" " +:+ join " " (a :: args)).
Qed.

(** White space around a line of tokens is trimmed away. *)
Lemma trim_tokens (pad1 pad2 command : string) (args : list string) :
  all_chars is_white pad1 = true ->
  all_chars is_white pad2 = true ->
  Forall (fun t => is_token t = true) (command :: args) ->
  trim (pad1 +:+ join " " (command :: args) +:+ pad2)
  = join " " (command :: args).
Proof.
  intros H1 H2 Ht. unfold trim. rewrite trimStart_pad by assumption.
  destruct (join_head command args) as [s Hs].
  assert (Hcmd : is_token command = true) by now inversion Ht.
  rewrite Hs, append_assoc, trimStart_token by assumption.
  rewrite <- append_assoc, <- Hs, trimEnd_pad by assumption.
  now apply trimEnd_black, join_black_ended.
Qed.

Lemma last_output_appended (w : World) (entry : CommandHistory) :
  last_output (Normal (tt, appended w entry)) = Some (output entry).
Proof. unfold last_output, appended. simpl. now rewrite last_snoc. Qed.

(** A line whose command is an entry of the table other than the three the
    interpreter handles itself runs that entry on the fields after the
    first and appends what it returns. *)
Lemma executeCommand_table (projects : list Project) (props : CLIProps)
    (now : Date) (input : string) (w : World) (cmd : string) (c : Command) :
  command_name input = cmd ->
  own_property (COMMANDS projects) cmd = Some c ->
  cmd <> "exit" -> cmd <> "clear" -> cmd <> "open" ->
  executeCommand projects props now input w
  = match execute c (snd (split " " (trim input))) with
    | Some out => Normal (tt, appended w {| command := trim input;
                                            output := out;
                                            timestamp := now |})
    | None => Normal (tt, w)
    end.
Proof.
  unfold command_name, executeCommand. intros Hc Hown He Hcl Ho.
  destruct (truthy (trim input)) eqn:Ht.
  - cbn [negb]. destruct (split " " (trim input)) as [command args].
    cbn [fst snd] in *. rewrite Hc.
    apply String.eqb_neq in He, Hcl, Ho. rewrite He, Hcl, Ho.
    unfold get_property. rewrite Hown. now destruct (execute c args).
  - apply truthy_false in Ht. rewrite Ht in Hc. subst cmd. discriminate.
Qed.





(** ** The [filter] command *)

Lemma filter_execute_lowercase (projects : list Project) (d : string)
    (rest : list string) :
  d <> "" ->
  filter_execute projects (d :: rest)
  = let dom := toUpperCase (charAt0 d) +:+ toLowerCase (slice1 d) in
    let filtered :=
      List.filter
        (fun p => String.eqb (toLowerCase (domain_string (domain p)))
                             (toLowerCase d))
        projects in
    if (length filtered =? 0)%nat
    then Some (Message yellow ("No projects found for domain: " +:+ dom))
    else Some (renderProjectList filtered ("Projects in " +:+ dom)).
Proof.
  intros Hd. unfold filter_execute. rewrite truthy_arg_head by assumption.
  cbv zeta. now rewrite toLowerCase_capitalised.
Qed.

Lemma filter_execute_listed (projects : list Project) (d : string)
    (rest : list string) :
  d <> "" ->
  listed (filter_execute projects (d :: rest))
  = List.filter
      (fun p => String.eqb (toLowerCase (domain_string (domain p)))
                           (toLowerCase d))
      projects.
Proof.
  intros Hd. rewrite filter_execute_lowercase by assumption. cbv zeta.
  destruct (List.filter _ projects) as [|p l]; reflexivity.
Qed.

Lemma filter_execute_some (projects : list Project) (d : string)
    (rest : list string) :
  exists out, filter_execute projects (d :: rest) = Some out.
Proof.
  unfold filter_execute. destruct (truthy_arg _); [| now eexists].
  cbv zeta. destruct (length _ =? 0)%nat; now eexists.
Qed.

Lemma token_nonempty (t : string) : is_token t = true -> t <> "".
Proof. destruct t; [discriminate | discriminate]. Qed.

(** A line [filter d] hands the token [d] to the command and appends what
    the command returns. *)
Lemma executeCommand_filter (projects : list Project) (props : CLIProps)
    (now : Date) (d : string) (w : World) :
  is_token d = true ->
  last_output (executeCommand projects props now ("filter " +:+ d) w)
  = filter_execute projects [d].
Proof.
  intros Hd.
  assert (Ht : trim ("filter " +:+ d) = "filter " +:+ d).
  { assert (Hf : Forall (fun t => is_token t = true) ["filter"; d])
      by (repeat constructor; assumption).
    pose proof (trim_tokens "" "" "filter" [d] eq_refl eq_refl Hf) as H.
    rewrite append_nil, append_empty_r in H. exact H. }
  assert (Hs : split " " ("filter " +:+ d) = ("filter", [d])).
  { change ("filter " +:+ d) with (join " " ["filter"; d]).
    apply split_join. repeat constructor. now apply token_spaceless. }
  unfold executeCommand. rewrite Ht, Hs.
  change (truthy ("filter " +:+ d)) with true. cbn [negb].
  change (toLowerCase "filter") with "filter".
  change (String.eqb "filter" "exit") with false.
  change (String.eqb "filter" "clear") with false.
  change (String.eqb "filter" "open") with false.
  cbv iota.
  change (get_property (COMMANDS projects) "filter")
    with (OwnCommand {| summary := "Filter projects by domain";
                        execute := filter_execute projects |}).
  cbn [execute].
  destruct (filter_execute_some projects d []) as [out Ho]. rewrite Ho.
  apply (last_output_appended w
           {| command := "filter " +:+ d; output := out; timestamp := now |}).
Qed.

(** C7.  The domain match of [filter] ignores case.  For every catalog and
    every token [d] of ASCII characters, [filter d] lists, in catalog order,
    exactly the projects whose domain equals [d] up to case; such a token
    [d'] that equals [d] up to case gives the same output, as a command and
    as a line of the terminal: so [filter security] and [filter Security]
    emit the same projects. *)
Theorem filter_ignores_case (projects : list Project) (d d' : string)
    (rest rest' : list string) :
  is_token d = true ->
  is_token d' = true ->
  is_ascii d = true ->
  is_ascii d' = true ->
  equal_up_to_case d d' ->
  (forall p, p ∈ listed (filter_execute projects (d :: rest))
             <-> p ∈ projects /\ equal_up_to_case (domain_string (domain p)) d)
  /\ sublist (listed (filter_execute projects (d :: rest))) projects
  /\ filter_execute projects (d' :: rest') = filter_execute projects (d :: rest)
  /\ (forall props now w,
        last_output (executeCommand projects props now ("filter " +:+ d') w)
        = last_output (executeCommand projects props now ("filter " +:+ d) w)).
Proof.
  intros Hd Hd' _ _ He.
  pose proof (token_nonempty _ Hd) as Hn.
  pose proof (token_nonempty _ Hd') as Hn'.
  assert (Hsame : forall r r',
             filter_execute projects (d' :: r') = filter_execute projects (d :: r)).
  { intros r r'. rewrite !filter_execute_lowercase by assumption.
    rewrite (capitalised_up_to_case d d' He). now rewrite He. }
  split; [| split; [| split]].
  - intros p. rewrite filter_execute_listed by assumption.
    rewrite !list_elem_of_In, filter_In, String.eqb_eq. reflexivity.
  - rewrite filter_execute_listed by assumption. apply filter_sublist.
  - apply Hsame.
  - intros props now w. rewrite !executeCommand_filter by assumption.
    apply Hsame.
Qed.

(** [filter security] and [filter Security] on the shipped catalog. *)
Lemma filter_security_witness :
  filter_execute Data.projects ["security"]
  = filter_execute Data.projects ["Security"]
  /\ forall props now w,
       last_output (executeCommand Data.projects props now "filter security" w)
       = last_output (executeCommand Data.projects props now "filter Security" w).
Proof.
  pose proof (filter_ignores_case Data.projects "Security" "security" [] []
                eq_refl eq_refl eq_refl eq_refl eq_refl) as H.
  split; [apply H | apply H].
Defined.

(** ** The grid and its filters *)

Lemma filter_sublist_impl {A : Type} (f g : A -> bool) (l : list A) :
  (forall x, x ∈ l -> f x = true -> g x = true) ->
  sublist (List.filter f l) (List.filter g l).
Proof.
  induction l as [|x l IH]; intros H; simpl; [constructor |].
  assert (IH' : sublist (List.filter f l) (List.filter g l)).
  { apply IH. intros y Hy. apply H. now apply list_elem_of_further. }
  destruct (f x) eqn:Ef.
  - rewrite (H x (list_elem_of_here _ _) Ef). now constructor.
  - destruct (g x); [now constructor | assumption].
Qed.

Lemma filteredProjects_weaker (projects : list Project) (q q' : string)
    (ds ds' : gset ProjectDomain) (ts ts' : gset ProjectType) :
  (forall p, passes q ds ts p -> passes q' ds' ts' p) ->
  sublist (filteredProjects projects q ds ts)
          (filteredProjects projects q' ds' ts').
Proof.
  intros H. apply filter_sublist_impl. intros p _ Hp.
  apply filterCallback_passes. now apply H, filterCallback_passes.
Qed.

Lemma append_empty (a b : string) : a +:+ b = "" -> a = "" /\ b = "".
Proof. destruct a; norm_append; [auto | discriminate]. Qed.

Lemma contains_ci_part (text pre q post : string) :
  contains_ci text (pre +:+ q +:+ post) -> contains_ci text q.
Proof.
  unfold contains_ci, toLowerCase. intros (a & b & H).
  rewrite !map_chars_app in H.
  exists (a +:+ map_chars lower_char pre), (map_chars lower_char post +:+ b).
  rewrite H. now rewrite !append_assoc.
Qed.

(** X1.  Typing on narrows the grid: for queries of ASCII characters, a query
    that contains the old one never brings a project back. *)
Theorem longer_query_narrows (projects : list Project) (pre q post : string)
    (ds : gset ProjectDomain) (ts : gset ProjectType) :
  is_ascii pre = true ->
  is_ascii q = true ->
  is_ascii post = true ->
  sublist (filteredProjects projects (pre +:+ q +:+ post) ds ts)
          (filteredProjects projects q ds ts).
Proof.
  intros _ _ _.
  apply filteredProjects_weaker. intros p (Hq & Hd & Ht).
  split; [| now split].
  destruct Hq as [He | [H | [H | (tech & Hin & H)]]].
  - left. apply append_empty in He as [_ He].
    now apply append_empty in He as [He _].
  - right; left. now apply contains_ci_part in H.
  - right; right; left. now apply contains_ci_part in H.
  - right; right; right. exists tech. split; [assumption |].
    now apply contains_ci_part in H.
Qed.

(** X2.  Lifting a restriction, or adding values to a selection that is not
    empty, only adds projects to the grid, and keeps their order. *)
Theorem wider_selection_widens (projects : list Project) (q : string)
    (ds ds' : gset ProjectDomain) (ts ts' : gset ProjectType) :
  sublist (filteredProjects projects q ds ts) (filteredProjects projects "" ds ts)
  /\ sublist (filteredProjects projects q ds ts) (filteredProjects projects q ∅ ts)
  /\ sublist (filteredProjects projects q ds ts) (filteredProjects projects q ds ∅)
  /\ (ds <> ∅ -> ds ⊆ ds' ->
      sublist (filteredProjects projects q ds ts)
              (filteredProjects projects q ds' ts))
  /\ (ts <> ∅ -> ts ⊆ ts' ->
      sublist (filteredProjects projects q ds ts)
              (filteredProjects projects q ds ts')).
Proof.
  repeat apply conj.
  - apply filteredProjects_weaker. intros p (_ & Hd & Ht).
    repeat split; [now left | assumption | assumption].
  - apply filteredProjects_weaker. intros p (Hq & _ & Ht).
    repeat split; [assumption | now left | assumption].
  - apply filteredProjects_weaker. intros p (Hq & Hd & _).
    repeat split; [assumption | assumption | now left].
  - intros Hne Hsub. apply filteredProjects_weaker. intros p (Hq & Hd & Ht).
    repeat split; [assumption | | assumption].
    destruct Hd as [-> | Hd]; [contradiction | right; set_solver].
  - intros Hne Hsub. apply filteredProjects_weaker. intros p (Hq & Hd & Ht).
    repeat split; [assumption | assumption |].
    destruct Ht as [-> | (t & H1 & H2)]; [contradiction |].
    right. exists t. split; [assumption | set_solver].
Qed.

(** Typing "react" after "re", on the shipped catalog. *)
Lemma longer_query_narrows_witness :
  sublist (filteredProjects Data.projects "react" ∅ ∅)
          (filteredProjects Data.projects "re" ∅ ∅).
Proof.
  exact (longer_query_narrows Data.projects "" "re" "act" ∅ ∅
           eq_refl eq_refl eq_refl).
Defined.

Lemma toLowerCase_truthy (s : string) : truthy (toLowerCase s) = truthy s.
Proof. now destruct s. Qed.

(** X3.  The grid ignores the case of the query. *)
Theorem grid_query_ignores_case (projects : list Project) (q q' : string)
    (ds : gset ProjectDomain) (ts : gset ProjectType) :
  equal_up_to_case q q' ->
  filteredProjects projects q ds ts = filteredProjects projects q' ds ts.
Proof.
  unfold equal_up_to_case. intros He. unfold filteredProjects.
  apply filter_ext. intros p. unfold filterCallback.
  now rewrite <- (toLowerCase_truthy q), <- (toLowerCase_truthy q'), He.
Qed.

Lemma grid_query_ignores_case_witness :
  filteredProjects Data.projects "REACT" ∅ ∅
  = filteredProjects Data.projects "react" ∅ ∅.
Proof.
  apply (grid_query_ignores_case Data.projects "REACT" "react" ∅ ∅).
  reflexivity.
Defined.

Lemma toggle_elem {A : Type} `{Countable A} (x y : A) (prev : gset A) :
  y ∈ Home.toggle x prev <-> (y ∈ prev /\ y <> x) \/ (y = x /\ x ∉ prev).
Proof.
  unfold Home.toggle. case_bool_decide as Hx.
  - rewrite elem_of_difference, not_elem_of_singleton. intuition congruence.
  - rewrite elem_of_union, elem_of_singleton. intuition congruence.
Qed.

Lemma toggle_toggle {A : Type} `{Countable A} (x : A) (prev : gset A) :
  Home.toggle x (Home.toggle x prev) = prev.
Proof.
  apply set_eq. intros y. rewrite !toggle_elem.
  destruct (decide (y = x)) as [-> | Hne], (decide (x ∈ prev));
    intuition congruence.
Qed.

(** X4.  A click on a domain or a type changes that value alone: it enters the
    selection when it was out and leaves it when it was in, so a second
    click restores the page's state. *)
Theorem toggle_flips_one (d d' : ProjectDomain) (t t' : ProjectType)
    (st : Home.State) :
  (d' ∈ Home.selectedDomains (Home.toggleDomain d st)
   <-> (d' ∈ Home.selectedDomains st /\ d' <> d)
       \/ (d' = d /\ d ∉ Home.selectedDomains st))
  /\ (t' ∈ Home.selectedTypes (Home.toggleType t st)
      <-> (t' ∈ Home.selectedTypes st /\ t' <> t)
          \/ (t' = t /\ t ∉ Home.selectedTypes st))
  /\ Home.toggleDomain d (Home.toggleDomain d st) = st
  /\ Home.toggleType t (Home.toggleType t st) = st.
Proof.
  split; [| split; [| split]].
  - apply toggle_elem.
  - apply toggle_elem.
  - destruct st. unfold Home.toggleDomain.
    cbn [Home.selectedProject Home.searchQuery Home.selectedDomains
         Home.selectedTypes Home.showFilters Home.cliOpen].
    f_equal. apply toggle_toggle.
  - destruct st. unfold Home.toggleType.
    cbn [Home.selectedProject Home.searchQuery Home.selectedDomains
         Home.selectedTypes Home.showFilters Home.cliOpen].
    f_equal. apply toggle_toggle.
Qed.

Lemma inactive_filters (st : Home.State) :
  Home.hasActiveFilters st = false
  <-> Home.searchQuery st = "" /\ Home.selectedDomains st = ∅
      /\ Home.selectedTypes st = ∅.
Proof.
  unfold Home.hasActiveFilters.
  rewrite !orb_false_iff, truthy_false, !no_selection. tauto.
Qed.

Lemma grid_unfiltered (projects : list Project) (st : Home.State) :
  Home.hasActiveFilters st = false -> Home.grid projects st = projects.
Proof.
  intros H. apply inactive_filters in H as (Hq & Hd & Ht).
  unfold Home.grid, filteredProjects. rewrite Hq, Hd, Ht.
  apply filter_all. intros p. apply filterCallback_passes.
  repeat split; now left.
Qed.

(** X5.  The page offers to clear the filters exactly when one is active.  With
    none active the grid is the whole catalog; so an empty grid over a
    catalog that is not empty always comes with the offer, and taking it
    brings the whole catalog back. *)
Theorem empty_grid_can_be_cleared (projects : list Project) (st : Home.State) :
  (Home.hasActiveFilters st = false -> Home.grid projects st = projects)
  /\ (Home.grid projects st = [] -> projects <> [] ->
      Home.hasActiveFilters st = true)
  /\ Home.hasActiveFilters (Home.clearFilters st) = false
  /\ Home.grid projects (Home.clearFilters st) = projects.
Proof.
  repeat apply conj.
  - apply grid_unfiltered.
  - intros Hg Hne. destruct (Home.hasActiveFilters st) eqn:E; [reflexivity |].
    apply (grid_unfiltered projects) in E. congruence.
  - apply inactive_filters. now repeat split.
  - apply grid_unfiltered, inactive_filters. now repeat split.
Qed.

(** ** The terminal and the grid *)

Lemma join_truthy (a : string) (rest : list string) :
  a <> "" -> truthy (join " " (a :: rest)) = true.
Proof.
  intros Ha. destruct (join_head a rest) as [s ->].
  destruct a; [contradiction | reflexivity].
Qed.

Lemma filterCallback_query_only (q : string) (p : Project) :
  truthy q = true ->
  filterCallback q ∅ ∅ p = matchesSearch (toLowerCase q) p.
Proof.
  intros Hq. unfold filterCallback. rewrite Hq, !size_empty.
  now destruct (matchesSearch (toLowerCase q) p).
Qed.

(** X6.  The terminal's [search] and the grid's search box find the same
    projects, in the same order: [search] with its arguments lists what the
    grid shows for the arguments joined by spaces and no domain or type
    selected. *)
Theorem search_agrees_with_grid (projects : list Project) (a : string)
    (rest : list string) :
  a <> "" ->
  listed (search_execute projects (a :: rest))
  = filteredProjects projects (join " " (a :: rest)) ∅ ∅.
Proof.
  intros Ha. unfold search_execute. rewrite truthy_arg_head by assumption.
  cbv zeta. unfold filteredProjects.
  rewrite (filter_ext (filterCallback (join " " (a :: rest)) ∅ ∅)
                      (matchesSearch (toLowerCase (join " " (a :: rest)))))
    by (intros p; now apply filterCallback_query_only, join_truthy).
  now destruct (List.filter _ projects).
Qed.

Lemma search_agrees_with_grid_witness :
  listed (search_execute Data.projects ["aws"; "glue"])
  = filteredProjects Data.projects "aws glue" ∅ ∅.
Proof.
  apply (search_agrees_with_grid Data.projects "aws" ["glue"]). discriminate.
Defined.

Lemma domain_string_lower_inj (d d' : ProjectDomain) :
  toLowerCase (domain_string d) = toLowerCase (domain_string d') -> d = d'.
Proof. destruct d, d'; vm_compute; congruence. Qed.

(** X7.  [filter] with a token that names a domain up to case lists what the
    grid shows when that domain alone is selected. *)
Theorem filter_command_agrees_with_grid (projects : list Project)
    (d : string) (rest : list string) (dom : ProjectDomain) :
  d <> "" ->
  equal_up_to_case d (domain_string dom) ->
  listed (filter_execute projects (d :: rest))
  = filteredProjects projects "" {[dom]} ∅.
Proof.
  unfold equal_up_to_case. intros Hd He.
  rewrite filter_execute_listed by assumption. unfold filteredProjects.
  apply filter_ext. intros p. apply eq_true_iff_eq.
  rewrite String.eqb_eq, filterCallback_passes, He. split.
  - intros H. apply domain_string_lower_inj in H.
    repeat split; [now left | right; set_solver | now left].
  - intros (_ & [Hd' | Hd'] & _); [set_solver |].
    apply elem_of_singleton in Hd'. now rewrite Hd'.
Qed.

Lemma filter_command_agrees_with_grid_witness :
  listed (filter_execute Data.projects ["SECURITY"])
  = filteredProjects Data.projects "" {[Security]} ∅.
Proof.
  apply (filter_command_agrees_with_grid Data.projects "SECURITY" [] Security).
  - discriminate.
  - reflexivity.
Defined.

Lemma lower_char_space (c : ascii) :
  Ascii.eqb (lower_char c) " " = Ascii.eqb c " ".
Proof. destruct c as [[] [] [] [] [] [] [] []]; reflexivity. Qed.

Lemma spaceless_toLowerCase (s : string) :
  spaceless (toLowerCase s) = spaceless s.
Proof.
  unfold spaceless, toLowerCase. induction s as [|c s IH]; [reflexivity |].
  simpl. now rewrite lower_char_space, IH.
Qed.

(** X8.  Typed into the terminal, [filter] never lists a project of a domain
    whose name has two words: the domain is taken from the first field
    after the command, and a field holds no space. *)
Theorem terminal_filter_misses_two_word_domains (projects : list Project)
    (props : CLIProps) (now : Date) (input : string) (w : World)
    (p : Project) :
  command_name input = "filter" ->
  p ∈ listed (last_output (executeCommand projects props now input w)) ->
  domain p <> DataEngineering /\ domain p <> WebDevelopment.
Proof.
  intros Hc.
  rewrite (executeCommand_table projects props now input w "filter"
             {| summary := "Filter projects by domain";
                execute := filter_execute projects |} Hc eq_refl)
    by discriminate.
  cbn [execute].
  destruct (split " " (trim input)) as [command args] eqn:Hs. cbn [snd].
  apply split_fields in Hs as [_ Hf]. apply Forall_cons in Hf as [_ Hargs].
  destruct args as [|a rest].
  - change (filter_execute projects [])
      with (Some (Message red "Usage: filter <domain>")).
    cbv beta iota. rewrite last_output_appended. cbn. intros H. inversion H.
  - destruct (filter_execute_some projects a rest) as [out Ho].
    rewrite Ho, last_output_appended. cbn [output]. rewrite <- Ho.
    destruct (decide (a = "")) as [-> | Ha]; [cbn; intros H; inversion H |].
    rewrite filter_execute_listed by assumption.
    rewrite list_elem_of_In, filter_In, String.eqb_eq. intros [_ He].
    apply Forall_cons in Hargs as [Hsp _].
    rewrite <- spaceless_toLowerCase, <- He in Hsp.
    split; intros Hd; rewrite Hd in Hsp; discriminate.
Qed.

Lemma terminal_filter_witness :
  domain (createProject Data.lock_and_key) <> DataEngineering
  /\ domain (createProject Data.lock_and_key) <> WebDevelopment.
Proof.
  apply (terminal_filter_misses_two_word_domains Data.projects navigating_host
           0%N "filter security" (opened 0%N)).
  - reflexivity.
  - vm_compute. apply list_elem_of_here.
Defined.

Lemma find_by_unique_id (projects : list Project) (p : Project) :
  NoDup (map id projects) -> p ∈ projects ->
  List.find (fun x => String.eqb (id x) (id p)) projects = Some p.
Proof.
  induction projects as [|x l IH]; intros Hnd Hin; [inversion Hin |].
  simpl in *. apply NoDup_cons in Hnd as [Hx Hnd].
  apply elem_of_cons in Hin as [-> | Hin].
  - now rewrite String.eqb_refl.
  - destruct (String.eqb (id x) (id p)) eqn:E; [| now apply IH].
    apply String.eqb_eq in E. exfalso. apply Hx. rewrite E.
    now apply list_elem_of_fmap_2.
Qed.

Lemma find_elem {A : Type} (f : A -> bool) (l : list A) (x : A) :
  List.find f l = Some x -> x ∈ l.
Proof. intros H. apply find_some in H as [H _]. now apply list_elem_of_In. Qed.

(** X9.  [open] and the page agree on the project.  In a catalog with unique
    ids, the project [open] resolved is the one the page's callback selects
    from the id it is given; the callback also closes the terminal and
    starts the timer that scrolls to the project's card.  An id no project
    has leaves the page as it is and starts no timer. *)
Theorem open_selects_resolved_project (projects : list Project) (q : string)
    (p : Project) (st : Home.State) :
  NoDup (map id projects) ->
  findProject projects q = Some p ->
  Home.handleNavigateToProject projects (id p) st
  = ({| Home.selectedProject := Some p;
        Home.searchQuery := Home.searchQuery st;
        Home.selectedDomains := Home.selectedDomains st;
        Home.selectedTypes := Home.selectedTypes st;
        Home.showFilters := Home.showFilters st;
        Home.cliOpen := false |},
     [{| Home.delay := 100; Home.scrollTo := "project-" +:+ id p |}])
  /\ forall projectId,
       (forall x, x ∈ projects -> id x <> projectId) ->
       Home.handleNavigateToProject projects projectId st = (st, []).
Proof.
  intros Hnd Hp. split.
  - unfold Home.handleNavigateToProject.
    now rewrite (find_by_unique_id projects p Hnd (find_elem _ _ _ Hp)).
  - intros projectId Hno. unfold Home.handleNavigateToProject.
    assert (Hf : List.find (fun x => String.eqb (id x) projectId) projects = None).
    { apply find_nothing. intros x Hx. apply String.eqb_neq. now apply Hno. }
    now rewrite Hf.
Qed.

Lemma open_selects_resolved_project_witness :
  fst (Home.handleNavigateToProject Data.projects "lock-and-key"
         {| Home.selectedProject := None; Home.searchQuery := "";
            Home.selectedDomains := ∅; Home.selectedTypes := ∅;
            Home.showFilters := false; Home.cliOpen := true |})
  = {| Home.selectedProject := Some (createProject Data.lock_and_key);
       Home.searchQuery := ""; Home.selectedDomains := ∅;
       Home.selectedTypes := ∅; Home.showFilters := false;
       Home.cliOpen := false |}.
Proof.
  refine (f_equal fst (proj1 (open_selects_resolved_project Data.projects
            "lock" (createProject Data.lock_and_key) _ _ eq_refl))).
  apply (bool_decide_unpack _). vm_compute. exact I.
Defined.

(** ** What a line can do *)

(** X10.  Every line that completes does one of five things: nothing; call
    [onClose] ([exit]); empty the history ([clear]); append one entry that
    carries the trimmed line and the time; or, for [open] with a navigation
    callback, call it with the id of a project of the catalog and append
    the confirmation.  The input buffer and the cursor are never touched. *)
Theorem executeCommand_effect (projects : list Project) (props : CLIProps)
    (now : Date) (input : string) (w w' : World) :
  executeCommand projects props now input w = Normal (tt, w') ->
  w' = w
  \/ (command_name input = "exit" /\ w' = called w OnClose)
  \/ (command_name input = "clear" /\ w' = cleared w)
  \/ (exists out, w' = appended w (entry_of input out now))
  \/ (command_name input = "open" /\ navigates props = true
      /\ exists p, p ∈ projects
           /\ w' = appended (called w (OnNavigateToProject (id p)))
                     (entry_of input
                        (Message green ("Opening project: " +:+ title p)) now)).
Proof.
  unfold command_name, executeCommand, entry_of.
  destruct (truthy (trim input)); cbn [negb];
    [| intros [= <-]; now left].
  destruct (split " " (trim input)) as [command args]. cbn [fst].
  destruct (String.eqb (toLowerCase command) "exit") eqn:E1.
  { apply String.eqb_eq in E1. intros [= <-]. right; left. now split. }
  destruct (String.eqb (toLowerCase command) "clear") eqn:E2.
  { apply String.eqb_eq in E2. intros [= <-]. right; right; left. now split. }
  destruct (String.eqb (toLowerCase command) "open") eqn:E3.
  - apply String.eqb_eq in E3.
    destruct (truthy_arg (args !! 0)) as [arg0 |].
    + destruct (findProject projects arg0) as [p |] eqn:Ep.
      * destruct (navigates props) eqn:En; intros [= <-].
        -- right; right; right; right. repeat split; [assumption |].
           exists p. split; [| reflexivity].
           unfold findProject in Ep. now apply find_elem in Ep.
        -- right; right; right; left. now eexists.
      * intros [= <-]. right; right; right; left. now eexists.
    + unfold get_property.
      destruct (own_property (COMMANDS projects) (toLowerCase command)) as [c |].
      * destruct (execute c args); intros [= <-];
          [right; right; right; left; now eexists | now left].
      * destruct (existsb _ Object_prototype_keys); [discriminate |].
        intros [= <-]. right; right; right; left. now eexists.
  - unfold get_property.
    destruct (own_property (COMMANDS projects) (toLowerCase command)) as [c |].
    + destruct (execute c args); intros [= <-];
        [right; right; right; left; now eexists | now left].
    + destruct (existsb _ Object_prototype_keys); [discriminate |].
      intros [= <-]. right; right; right; left. now eexists.
Qed.

Lemma executeCommand_effect_witness :
  called (opened 0%N) OnClose = opened 0%N
  \/ (command_name "exit" = "exit"
      /\ called (opened 0%N) OnClose = called (opened 0%N) OnClose)
  \/ (command_name "exit" = "clear"
      /\ called (opened 0%N) OnClose = cleared (opened 0%N))
  \/ (exists out,
        called (opened 0%N) OnClose
        = appended (opened 0%N) (entry_of "exit" out 0%N))
  \/ (command_name "exit" = "open" /\ navigates navigating_host = true
      /\ exists p, p ∈ Data.projects
           /\ called (opened 0%N) OnClose
              = appended (called (opened 0%N) (OnNavigateToProject (id p)))
                  (entry_of "exit"
                     (Message green ("Opening project: " +:+ title p)) 0%N)).
Proof.
  apply (executeCommand_effect Data.projects navigating_host 0%N "exit"
           (opened 0%N) (called (opened 0%N) OnClose)).
  reflexivity.
Defined.

(** A line that names a method of [Object.prototype] in its usual spelling
    is lowercased first and completes like any unknown command. *)
Lemma executeCommand_completes_witness :
  exists w',
    executeCommand Data.projects navigating_host 0%N "toString" (opened 0%N)
    = Normal (tt, w').
Proof.
  apply (executeCommand_completes Data.projects navigating_host 0%N "toString"
           (opened 0%N)); vm_compute; discriminate.
Defined.

Lemma unknown_command_message_witness :
  executeCommand Data.projects navigating_host 0%N "FooBar x" (opened 0%N)
  = Normal (tt, appended (opened 0%N)
                  {| command := "FooBar x";
                     output := Message red
                       "Command not found: foobar. Type 'help' for available commands.";
                     timestamp := 0%N |}).
Proof.
  apply (unknown_command_message Data.projects navigating_host 0%N "FooBar x"
           (opened 0%N)).
  - discriminate.
  - reflexivity.
Defined.

(** X13.  What [open] prints.  A line whose command is [open] ends with exactly
    one of three messages: the usage, "Project not found", or the
    confirmation for a project of the catalog.  The longer not-found message
    of the table's own [open] entry is never printed: the interpreter calls
    that entry only without an argument. *)
Theorem open_line_outputs (projects : list Project) (props : CLIProps)
    (now : Date) (input : string) (w : World) :
  command_name input = "open" ->
  (last_output (executeCommand projects props now input w)
   = Some (Message red "Usage: open <project-id>")
   \/ last_output (executeCommand projects props now input w)
      = Some (Message red "Project not found")
   \/ exists p, p ∈ projects
        /\ last_output (executeCommand projects props now input w)
           = Some (Message green ("Opening project: " +:+ title p)))
  /\ last_output (executeCommand projects props now input w)
     <> Some (Message red "Project not found. Use 'ls' to see available projects.").
Proof.
  intros Hc.
  assert (H : last_output (executeCommand projects props now input w)
              = Some (Message red "Usage: open <project-id>")
              \/ last_output (executeCommand projects props now input w)
                 = Some (Message red "Project not found")
              \/ exists p, p ∈ projects
                   /\ last_output (executeCommand projects props now input w)
                      = Some (Message green ("Opening project: " +:+ title p))).
  { revert Hc. unfold command_name, executeCommand.
    destruct (truthy (trim input)) eqn:Ht;
      [| apply truthy_false in Ht; rewrite Ht; discriminate].
    cbn [negb]. destruct (split " " (trim input)) as [command args].
    cbn [fst]. intros ->.
    change (String.eqb "open" "exit") with false.
    change (String.eqb "open" "clear") with false.
    change (String.eqb "open" "open") with true.
    cbv iota.
    destruct (truthy_arg (args !! 0)) as [arg0 |] eqn:Ea.
    - destruct (findProject projects arg0) as [p |] eqn:Ep.
      + right; right. exists p. split.
        * unfold findProject in Ep. now apply find_elem in Ep.
        * destruct (navigates props);
            [apply (last_output_appended
                      (called w (OnNavigateToProject (id p))))
            | apply (last_output_appended w)].
      + right; left. apply (last_output_appended w).
    - left.
      change (get_property (COMMANDS projects) "open")
        with (OwnCommand {| summary := "Open a project by ID";
                            execute := open_execute projects |}).
      cbn [execute]. unfold open_execute. rewrite Ea.
      apply (last_output_appended w). }
  split; [exact H |].
  destruct H as [-> | [-> | (p & _ & ->)]]; discriminate.
Qed.

Lemma open_line_outputs_witness :
  last_output (executeCommand Data.projects navigating_host 0%N
                 "open nothing-here" (opened 0%N))
  <> Some (Message red "Project not found. Use 'ls' to see available projects.").
Proof.
  apply (open_line_outputs Data.projects navigating_host 0%N
           "open nothing-here" (opened 0%N)).
  reflexivity.
Defined.

(** ** The recall keys *)

Lemma arrowUp_step (projects : list Project) (props : CLIProps) (now : Date)
    (w : World) :
  commandHistory (state w) <> [] ->
  let h := commandHistory (state w) in
  let newIndex :=
    (if commandIndex (state w) =? -1 then Z.of_nat (length h) - 1
     else Z.max 0 (commandIndex (state w) - 1))%Z in
  handleKeyDown projects props now "ArrowUp" w
  = Normal (tt, with_cursor w
                  match command <$> at_index h newIndex with
                  | Some cmd =>
                      if truthy cmd && negb (String.eqb cmd "welcome")
                      then cmd else currentInput (state w)
                  | None => currentInput (state w)
                  end
                  newIndex).
Proof.
  intros Hh h newIndex. subst h newIndex.
  unfold handleKeyDown, mbind, M_bind, render.
  change (String.eqb "ArrowUp" "Enter") with false.
  change (String.eqb "ArrowUp" "ArrowUp") with true.
  cbv beta iota zeta.
  destruct (commandHistory (state w)) as [|e0 h] eqn:Eh; [contradiction |].
  change (0 <? length (e0 :: h))%nat with true. cbv iota.
  unfold setCommandIndex at 1. cbv beta iota.
  destruct (command <$> at_index (e0 :: h) _) as [cmd |];
    [destruct (truthy cmd && negb (String.eqb cmd "welcome")) |];
    unfold with_cursor; cbn; now rewrite Eh.
Qed.

Lemma arrowUp_empty (projects : list Project) (props : CLIProps) (now : Date)
    (w : World) :
  commandHistory (state w) = [] ->
  handleKeyDown projects props now "ArrowUp" w = Normal (tt, w).
Proof.
  intros Hh. unfold handleKeyDown, mbind, M_bind, render.
  change (String.eqb "ArrowUp" "Enter") with false.
  change (String.eqb "ArrowUp" "ArrowUp") with true.
  cbv beta iota zeta. now rewrite Hh.
Qed.

Lemma at_index_in_range {A : Type} (l : list A) (i : Z) :
  (0 <= i < Z.of_nat (length l))%Z -> exists x, at_index l i = Some x.
Proof.
  intros Hi. unfold at_index.
  destruct (Z.ltb_spec i 0) as [Hneg | Hpos]; [lia |].
  apply lookup_lt_is_Some. lia.
Qed.

Lemma at_index_some {A : Type} (l : list A) (i : Z) (x : A) :
  at_index l i = Some x -> (0 <= i < Z.of_nat (length l))%Z.
Proof.
  unfold at_index. destruct (Z.ltb_spec i 0) as [Hneg | Hpos]; [discriminate |].
  intros H. apply lookup_lt_Some in H. lia.
Qed.

Lemma arrowDown_step (projects : list Project) (props : CLIProps) (now : Date)
    (w : World) :
  let h := commandHistory (state w) in
  let i := commandIndex (state w) in
  handleKeyDown projects props now "ArrowDown" w
  = Normal (tt,
      if (0 <=? i)%Z then
        if (Z.of_nat (length h) <=? i + 1)%Z then with_cursor w "" (-1)
        else with_cursor w
               (default "" (command <$> at_index h (i + 1))) (i + 1)
      else w).
Proof.
  intros h i. subst h i.
  unfold handleKeyDown, mbind, M_bind, render.
  change (String.eqb "ArrowDown" "Enter") with false.
  change (String.eqb "ArrowDown" "ArrowUp") with false.
  change (String.eqb "ArrowDown" "ArrowDown") with true.
  cbv beta iota zeta.
  destruct (Z.leb_spec 0 (commandIndex (state w))) as [Hi | Hneg];
    [| reflexivity].
  destruct (Z.leb_spec (Z.of_nat (length (commandHistory (state w))))
                       (commandIndex (state w) + 1)) as [Hge | Hlt];
    [reflexivity |].
  destruct (at_index_in_range (commandHistory (state w))
              (commandIndex (state w) + 1)) as [e He]; [lia |].
  unfold setCommandIndex at 1. cbv beta iota. now rewrite He.
Qed.



Lemma plain_key_step (projects : list Project) (props : CLIProps) (now : Date)
    (key : string) (w : World) :
  key <> "Enter" -> key <> "ArrowUp" -> key <> "ArrowDown" ->
  handleKeyDown projects props now key w
  = Normal (tt, if String.eqb key "Escape" then called w OnClose else w).
Proof.
  intros H1 H2 H3. apply String.eqb_neq in H1, H2, H3.
  unfold handleKeyDown, mbind, M_bind, render. rewrite H1, H2, H3.
  now destruct (String.eqb key "Escape").
Qed.

Lemma enter_step (projects : list Project) (props : CLIProps) (now : Date)
    (w : World) :
  handleKeyDown projects props now "Enter" w
  = match executeCommand projects props now (currentInput (state w)) w with
    | Normal (_, w1) => Normal (tt, with_cursor w1 "" (-1))
    | Throw e => Throw e
    end.
Proof.
  unfold handleKeyDown, mbind, M_bind, render.
  change (String.eqb "Enter" "Enter") with true. cbv beta iota zeta.
  now destruct (executeCommand projects props now (currentInput (state w)) w)
    as [[[] w1] | e].
Qed.

Lemma dispatch_cursor_ok (projects : list Project) (props : CLIProps)
    (now : Date) (ev : UIEvent) (w w' : World) :
  cursor_ok (state w) ->
  dispatch projects props now ev w = Normal (tt, w') ->
  cursor_ok (state w').
Proof.
  intros Hok. destruct ev as [value | key]; cbn [dispatch].
  - intros [= <-]. exact Hok.
  - destruct (String.eqb key "Enter") eqn:Ee.
    { apply String.eqb_eq in Ee as ->. rewrite enter_step.
      destruct (executeCommand _ _ _ _ _) as [[[] w1] | e]; [| discriminate].
      intros [= <-]. now left. }
    destruct (String.eqb key "ArrowUp") eqn:Eu.
    { apply String.eqb_eq in Eu as ->.
      destruct (commandHistory (state w)) as [|e0 h] eqn:Eh.
      - rewrite arrowUp_empty by assumption. now intros [= <-].
      - pose proof (arrowUp_step projects props now w) as H.
        cbv zeta in H. rewrite H by (rewrite Eh; discriminate).
        intros [= <-]. unfold cursor_ok in *. cbn. right.
        rewrite Eh in *. cbn [length] in *.
        destruct (Z.eqb_spec (commandIndex (state w)) (-1)); lia. }
    destruct (String.eqb key "ArrowDown") eqn:Ed.
    { apply String.eqb_eq in Ed as ->.
      pose proof (arrowDown_step projects props now w) as H.
      cbv zeta in H. rewrite H. intros [= <-]. unfold cursor_ok in *.
      destruct (Z.leb_spec 0 (commandIndex (state w))) as [Hi | Hneg];
        [| exact Hok].
      destruct (Z.leb_spec (Z.of_nat (length (commandHistory (state w))))
                           (commandIndex (state w) + 1)) as [Hge | Hlt];
        cbn; [now left | right; lia]. }
    apply String.eqb_neq in Ee, Eu, Ed.
    rewrite plain_key_step by assumption. intros [= <-].
    now destruct (String.eqb key "Escape").
Qed.

(** X15.  The cursor of the history never leaves it: whatever is typed and
    whatever keys are pressed, after a session that did not throw the cursor
    is off or on an entry of the history, as it was before. *)
Theorem session_keeps_cursor (projects : list Project) (props : CLIProps)
    (events : list (Date * UIEvent)) (w w' : World) :
  cursor_ok (state w) ->
  session projects props events w = Normal (tt, w') ->
  cursor_ok (state w').
Proof.
  revert w. induction events as [|[now ev] events IH]; intros w Hok.
  - now intros [= <-].
  - cbn [session]. unfold mbind, M_bind.
    destruct (dispatch projects props now ev w) as [[[] w1] | e] eqn:Ed;
      [| discriminate].
    apply IH. now apply (dispatch_cursor_ok projects props now ev w w1).
Qed.

Lemma session_keeps_cursor_witness :
  cursor_ok
    (state (with_cursor
              (appended
                 (appended (opened 0%N)
                    {| command := "ls";
                       output := ProjectList Data.projects "Projects";
                       timestamp := 1%N |})
                 {| command := "help"; output := HelpText; timestamp := 3%N |})
              "ls" 1)).
Proof.
  apply (session_keeps_cursor Data.projects navigating_host
           (at_times N.of_nat recall_twice) (opened 0%N)).
  - now left.
  - reflexivity.
Defined.

(** X16.  Up and then down.  With the cursor on an entry that is not the first,
    the up arrow followed by the down arrow brings the cursor back and puts
    that entry's line in the buffer.  With the cursor off and a history that
    is not empty, the same two keys end with the cursor off and an empty
    buffer: what was typed and not yet entered is gone. *)
Theorem up_then_down (projects : list Project) (props : CLIProps)
    (t1 t2 : Date) (w : World) :
  (forall e,
      (1 <= commandIndex (state w))%Z ->
      at_index (commandHistory (state w)) (commandIndex (state w)) = Some e ->
      session projects props
        [(t1, KeyDown "ArrowUp"); (t2, KeyDown "ArrowDown")] w
      = Normal (tt, with_cursor w (command e) (commandIndex (state w))))
  /\ (commandIndex (state w) = (-1)%Z ->
      commandHistory (state w) <> [] ->
      session projects props
        [(t1, KeyDown "ArrowUp"); (t2, KeyDown "ArrowDown")] w
      = Normal (tt, with_cursor w "" (-1))).
Proof.
  split.
  - intros e Hi He. pose proof (at_index_some _ _ _ He) as Hr.
    assert (Hh : commandHistory (state w) <> []).
    { intros E. rewrite E in Hr. cbn in Hr. lia. }
    cbn [session dispatch]. unfold mbind, M_bind.
    pose proof (arrowUp_step projects props t1 w Hh) as Hu.
    cbv zeta in Hu. rewrite Hu. clear Hu.
    destruct (Z.eqb_spec (commandIndex (state w)) (-1)) as [| _]; [lia |].
    rewrite Z.max_r by lia.
    match goal with
    | |- context [with_cursor w ?b ?i] => generalize b; intros buf
    end.
    pose proof (arrowDown_step projects props t2
                  (with_cursor w buf (commandIndex (state w) - 1))) as Hd.
    cbv zeta in Hd. rewrite Hd. clear Hd. cbn [with_cursor state commandIndex
      commandHistory calls].
    destruct (Z.leb_spec 0 (commandIndex (state w) - 1)); [| lia].
    destruct (Z.leb_spec (Z.of_nat (length (commandHistory (state w))))
                         (commandIndex (state w) - 1 + 1)); [lia |].
    replace (commandIndex (state w) - 1 + 1)%Z with (commandIndex (state w))
      by lia.
    now rewrite He.
  - intros Hi Hh.
    cbn [session dispatch]. unfold mbind, M_bind.
    pose proof (arrowUp_step projects props t1 w Hh) as Hu.
    cbv zeta in Hu. rewrite Hu. clear Hu. rewrite Hi.
    change (-1 =? -1)%Z with true. cbv iota.
    match goal with
    | |- context [with_cursor w ?b ?i] => generalize b; intros buf
    end.
    pose proof (arrowDown_step projects props t2
                  (with_cursor w buf
                     (Z.of_nat (length (commandHistory (state w))) - 1))) as Hd.
    cbv zeta in Hd. rewrite Hd. clear Hd. cbn [with_cursor state commandIndex
      commandHistory calls].
    assert (0 < length (commandHistory (state w)))%nat
      by (destruct (commandHistory (state w)); [contradiction | cbn; lia]).
    destruct (Z.leb_spec 0 (Z.of_nat (length (commandHistory (state w))) - 1));
      [| lia].
    destruct (Z.leb_spec (Z.of_nat (length (commandHistory (state w))))
                (Z.of_nat (length (commandHistory (state w))) - 1 + 1));
      [reflexivity | lia].
Qed.

Lemma up_then_down_witness :
  session Data.projects navigating_host
    [(5%N, KeyDown "ArrowUp"); (6%N, KeyDown "ArrowDown")]
    (with_cursor (opened 0%N) "half-typed draft" (-1))
  = Normal (tt, with_cursor (opened 0%N) "" (-1)).
Proof.
  apply (proj2 (up_then_down Data.projects navigating_host 5%N 6%N
                  (with_cursor (opened 0%N) "half-typed draft" (-1)))).
  - reflexivity.
  - discriminate.
Defined.

(** X17.  The up arrow recalls entered lines only: after it the buffer is what it
    was, or the line of an entry of the history that is neither empty nor
    the word that marks the welcome entry; so the welcome entry, and a line
    [welcome] the user entered, never reach the buffer this way. *)
Theorem up_never_recalls_welcome (projects : list Project) (props : CLIProps)
    (now : Date) (w w' : World) :
  handleKeyDown projects props now "ArrowUp" w = Normal (tt, w') ->
  currentInput (state w') = currentInput (state w)
  \/ exists e, e ∈ commandHistory (state w)
       /\ currentInput (state w') = command e
       /\ command e <> "welcome" /\ command e <> "".
Proof.
  destruct (commandHistory (state w)) as [|e0 h] eqn:Eh.
  - rewrite arrowUp_empty by assumption. intros [= <-]. now left.
  - pose proof (arrowUp_step projects props now w) as H.
    cbv zeta in H. rewrite H by (rewrite Eh; discriminate). clear H.
    intros [= <-]. cbn [with_cursor state currentInput].
    destruct (at_index (commandHistory (state w)) _) as [e |] eqn:Ea;
      cbn [fmap option_fmap option_map]; [| now left].
    destruct (truthy (command e)) eqn:Et; cbn [andb]; [| now left].
    destruct (String.eqb (command e) "welcome") eqn:Ew; cbn [negb];
      [now left |].
    right. exists e. rewrite <- Eh. repeat split.
    + unfold at_index in Ea. destruct (_ <? 0)%Z; [discriminate |].
      now apply list_elem_of_lookup_2 in Ea.
    + now apply String.eqb_neq.
    + now apply truthy_true.
Qed.

Lemma up_never_recalls_welcome_witness :
  currentInput (state (with_cursor (opened 0%N) "draft" 0))
  = currentInput (state (with_cursor (opened 0%N) "draft" (-1)))
  \/ exists e, e ∈ commandHistory (state (with_cursor (opened 0%N) "draft" (-1)))
       /\ currentInput (state (with_cursor (opened 0%N) "draft" 0)) = command e
       /\ command e <> "welcome" /\ command e <> "".
Proof.
  apply (up_never_recalls_welcome Data.projects navigating_host 0%N
           (with_cursor (opened 0%N) "draft" (-1))
           (with_cursor (opened 0%N) "draft" 0)).
  reflexivity.
Defined.

(** ** The other pages *)

(** X18.  The case studies follow the list of ids, not the catalog: their ids
    are the listed ids that some project of the catalog has, in the order
    of the list, an id without a project being skipped; each of them is a
    project of the catalog. *)
Theorem case_studies_follow_the_ids (projects : list Project)
    (ids : list string) :
  map id (CaseStudies.featuredProjects projects ids)
  = List.filter (fun i => bool_decide (i ∈ map id projects)) ids
  /\ Forall (fun p => p ∈ projects) (CaseStudies.featuredProjects projects ids).
Proof.
  unfold CaseStudies.featuredProjects.
  induction ids as [|i ids [IHm IHf]]; [split; [reflexivity | constructor] |].
  cbn [map omap list_omap List.filter].
  destruct (List.find (fun p => String.eqb (id p) i) projects) as [p |] eqn:Ef.
  - pose proof (find_elem _ _ _ Ef) as Hin.
    apply find_some in Ef as [_ Hi]. apply String.eqb_eq in Hi.
    rewrite bool_decide_eq_true_2 by (rewrite <- Hi; now apply list_elem_of_fmap_2).
    split; [cbn [map]; now rewrite IHm, Hi | now constructor].
  - rewrite bool_decide_eq_false_2; [now split |].
    intros Hin. apply list_elem_of_fmap in Hin as (p & -> & Hp).
    pose proof (proj1 (find_nothing _ _) Ef p Hp) as Hn. cbn in Hn.
    now rewrite String.eqb_refl in Hn.
Qed.

(** X19.  The tagline index goes round: after [n] runs of the interval it is
    [n mod 3], so it always points at one of the three taglines. *)
Theorem tagline_goes_round (n : nat) :
  Hero.currentTagline n = n mod 3
  /\ is_Some (Hero.taglines !! Hero.currentTagline n).
Proof.
  assert (H : Hero.currentTagline n = n mod 3).
  { unfold Hero.currentTagline. induction n as [|n IH]; [reflexivity |].
    rewrite Nat.iter_succ, IH. unfold Hero.tick.
    change (length Hero.taglines) with 3.
    rewrite Nat.Div0.add_mod_idemp_l. f_equal. lia. }
  split; [exact H |]. rewrite H. apply lookup_lt_is_Some.
  change (length Hero.taglines) with 3. apply Nat.mod_upper_bound. lia.
Qed.

(** X20.  A card accounts for every technology: it shows the first four at most
    and its badge counts the rest, a badge of zero never being shown. *)
Theorem card_accounts_for_techStack (p : Project) :
  Card.shown p `prefix_of` techStack p
  /\ length (Card.shown p) <= 4
  /\ length (Card.shown p) + default 0 (Card.badge p) = length (techStack p)
  /\ (Card.badge p = None <-> length (techStack p) <= 4)
  /\ Card.badge p <> Some 0.
Proof.
  unfold Card.shown, Card.badge. rewrite length_take.
  destruct (Nat.ltb_spec 4 (length (techStack p))) as [Hlt | Hge].
  - split; [apply prefix_take |]. split; [lia |].
    split; [unfold default; cbn [from_option]; unfold Datatypes.id; lia |].
    split; [split; [discriminate | lia] |]. intros [= H]. lia.
  - split; [apply prefix_take |]. split; [lia |].
    split; [unfold default; cbn [from_option]; unfold Datatypes.id; lia |].
    split; [split; [intros _; lia | reflexivity] | discriminate].
Qed.

(** X21.  What is stored comes back.  Once the provider is mounted, the effect
    stores the theme's name and the colour mode; a provider mounted later on
    that store ends in the same state, applies the same theme and leaves the
    store as it is.  Without a usable store, or with an empty one, it keeps
    the defaults. *)
Theorem theme_comes_back (st : Theme.State) (items : gmap string string) :
  Theme.mounted st = true ->
  Theme.themeName st <> "" ->
  Theme.colorMode st <> "" ->
  Theme.mount (snd (Theme.applyEffect st (Some items)))
  = (st, fst (Theme.applyEffect st (Some items)),
     snd (Theme.applyEffect st (Some items)))
  /\ fst (fst (Theme.mount None))
     = {| Theme.themeName := "security"; Theme.colorMode := "dark";
          Theme.mounted := true |}
  /\ fst (fst (Theme.mount (Some ∅)))
     = {| Theme.themeName := "security"; Theme.colorMode := "dark";
          Theme.mounted := true |}.
Proof.
  intros Hm Ht Hc. split; [| split; reflexivity].
  destruct st as [t c m]. cbn in Hm, Ht, Hc. subst m.
  apply truthy_true in Ht, Hc.
  unfold Theme.mount, Theme.applyEffect, Theme.loadEffect, Theme.initial.
  cbn [Theme.mounted Theme.themeName Theme.colorMode fst snd].
  rewrite lookup_insert_eq, lookup_insert_ne, lookup_insert_eq by discriminate.
  unfold Theme.truthy_item. rewrite Ht, Hc. cbn [default].
  rewrite (insert_id (<["colorMode":=c]> (<["theme":=t]> items)) "theme" t)
    by (rewrite lookup_insert_ne, lookup_insert_eq by discriminate; reflexivity).
  rewrite (insert_id (<["colorMode":=c]> (<["theme":=t]> items)) "colorMode" c)
    by apply lookup_insert_eq.
  reflexivity.
Qed.

Lemma theme_comes_back_witness :
  fst (fst (Theme.mount
              (snd (Theme.applyEffect
                      {| Theme.themeName := "cyber"; Theme.colorMode := "light";
                         Theme.mounted := true |} (Some ∅)))))
  = {| Theme.themeName := "cyber"; Theme.colorMode := "light";
       Theme.mounted := true |}.
Proof.
  refine (f_equal (fun r => fst (fst r))
            (proj1 (theme_comes_back
                      {| Theme.themeName := "cyber"; Theme.colorMode := "light";
                         Theme.mounted := true |} ∅ eq_refl _ _)));
    discriminate.
Defined.

(** X22.  The colour mode toggle always ends in one of the two modes, whatever
    the store had put in the state; it flips the [dark] class of the page;
    and from either of the two modes a second toggle restores the state. *)
Theorem toggle_flips_dark (st : Theme.State) (store : Theme.Storage) :
  (Theme.colorMode (Theme.toggleColorMode st) = "light"
   \/ Theme.colorMode (Theme.toggleColorMode st) = "dark")
  /\ Theme.darkClass (fst (Theme.applyEffect (Theme.toggleColorMode st) store))
     = negb (Theme.darkClass (fst (Theme.applyEffect st store)))
  /\ (Theme.colorMode st = "dark" \/ Theme.colorMode st = "light" ->
      Theme.toggleColorMode (Theme.toggleColorMode st) = st).
Proof.
  destruct st as [t c m]. unfold Theme.toggleColorMode, Theme.applyEffect.
  cbn [Theme.themeName Theme.colorMode Theme.mounted].
  split; [| split].
  - destruct (String.eqb c "dark"); auto.
  - destruct m, (String.eqb c "dark"); reflexivity.
  - intros [-> | ->]; reflexivity.
Qed.

(** ** Row labels *)

Lemma parse_nat_zero (s : string) :
  parse_nat (String "0" s) = parse_nat s.
Proof.
  unfold parse_nat. cbn [NilEmpty.uint_of_string].
  destruct (NilEmpty.uint_of_string s) as [d |]; reflexivity.
Qed.

Lemma parse_String_of_nat (n : nat) : parse_nat (String_of_nat n) = Some n.
Proof.
  unfold parse_nat, String_of_nat. rewrite NilEmpty.usu. cbn.
  now rewrite DecimalNat.Unsigned.of_to.
Qed.

Lemma parse_padStart2 (s : string) (n : nat) :
  parse_nat s = Some n -> parse_nat (padStart2 s) = Some n.
Proof.
  destruct s as [|c [|c' s]]; cbn [padStart2]; [| | auto].
  - now intros [= <-].
  - now rewrite parse_nat_zero.
Qed.

(** X23.  The label of a row reads back as its position counted from one, so
    different rows carry different labels; and it has two characters at
    least. *)
Theorem row_labels_read_back (i : nat) :
  parse_nat (rowLabel i) = Some (i + 1)
  /\ 2 <= String.length (rowLabel i)
  /\ forall j, rowLabel i = rowLabel j -> i = j.
Proof.
  assert (H : forall k, parse_nat (rowLabel k) = Some (k + 1))
    by (intros k; apply parse_padStart2, parse_String_of_nat).
  split; [apply H | split].
  - unfold rowLabel. destruct (String_of_nat (i + 1)) as [|c [|c' s]]; cbn; lia.
  - intros j E. pose proof (H i) as Hi. rewrite E, H in Hi.
    injection Hi. lia.
Qed.
